(** * gosocks: the per-connection SOCKS5 handler of [gosocks.go]

    A shallow embedding of [clientLoop], [readClientLoop] and
    [readRemoteLoop].  Sockets, the DNS resolver and the dialer are the
    environment of a run; the handler is a function from that environment
    to the list of things it did (reads, writes, lookups, dials, log lines,
    closes). *)

From Stdlib Require Import ZArith NArith List Bool Lia.
From Stdlib Require Import Strings.Byte.
Import ListNotations.
Open Scope Z_scope.

(** ** Bytes and Go's byte arithmetic *)

Definition b2z (b : byte) : Z := Z.of_N (Byte.to_N b).

(** Go's conversion [byte(x)]: the low eight bits. *)
Definition z2b (z : Z) : byte :=
  match Byte.of_N (Z.to_N (z mod 256)) with
  | Some b => b
  | None => x00
  end.

(** [len] of a slice made with a byte count. *)
Definition b2n (b : byte) : nat := Z.to_nat (b2z b).

(** Arithmetic on operands of type [byte] wraps at 256. *)
Definition wrap8 (z : Z) : Z := z mod 256.

(** ** Slices of the fixed [reply] array *)

Fixpoint store (i : nat) (v : byte) (l : list byte) : list byte :=
  match l, i with
  | [], _ => []
  | _ :: t, O => v :: t
  | h :: t, S j => h :: store j v t
  end.

(** [copy(l[lo:hi], src)]: copies [min (hi - lo) (len src)] bytes. *)
Definition copy (lo hi : nat) (src l : list byte) : list byte :=
  let n := Nat.min (hi - lo) (length src) in
  firstn lo l ++ firstn n src ++ skipn (lo + n) l.

(** ** Sockets, addresses, the environment *)

(** [os.Error] as the program distinguishes it: [os.EOF] or anything else. *)
Inductive error := EOF | OtherError.

(** What a [Write] call returns: [nw] and [err]. *)
Record write_result := { nw : nat; werr : option error }.

Record TCPAddr := { IP : list byte; Port : Z }.

(** A [*net.TCPConn] as this program sees it: the bytes its peer sends, what
    [Read] returns once they are used up (sticky), the outcome of the k-th
    [Write] call on it, and the socket's own local address. *)
Record TCPConn := {
  incoming : list byte;
  ending : error;
  wr : nat -> list byte -> write_result;
  LocalAddr : TCPAddr
}.

Record Env := {
  client : TCPConn;
  LookupIP : list byte -> option (list (list byte));
  DialTCP : TCPAddr -> option TCPConn
}.

(** One constructor per [log.Printf] call site. *)
Inductive logmsg :=
| LogReadVersionMethods
| LogOnlySocks5 (v : byte)
| LogNoMethods
| LogReadMethods
| LogOnlyNoAuth
| LogWriteVersionMethod
| LogReadRequestHeader
| LogRequestVersion (v : byte)
| LogOnlyConnect
| LogReserved
| LogReadAddress
| LogReadHostLen
| LogReadHostName
| LogResolve
| LogNoIP (host : list byte)
| LogReadPort
| LogUnknownAddressType (t : byte)
| LogRequestedAddress (a : TCPAddr)
| LogConnect
| LogWriteReply
| LogReadClient
| LogWriteRemote
| LogReadRemote
| LogWriteClient.

Inductive event :=
| ClientRead (bs : list byte)      (* bytes taken off the client socket *)
| ClientWrite (bs : list byte)     (* the slice handed to client.Write *)
| RemoteRead (bs : list byte)
| RemoteWrite (bs : list byte)
| Lookup (host : list byte)        (* net.LookupIP *)
| Dial (a : TCPAddr)               (* net.DialTCP *)
| Log (m : logmsg)
| CloseRemote
| CloseClient
| Crash.                           (* run-time panic: index out of range *)

(** The state of one [clientLoop] goroutine. *)
Record State := {
  cin : list byte;            (* client bytes not yet read *)
  cwrites : nat;              (* Write calls made on the client socket *)
  remote : option TCPConn;    (* the outbound socket, once dialled *)
  rin : list byte;            (* remote bytes not yet read *)
  rwrites : nat;              (* Write calls made on the remote socket *)
  trace : list event          (* what happened so far, oldest first *)
}.

Definition emit (ev : event) (s : State) : State :=
  {| cin := cin s; cwrites := cwrites s; remote := remote s; rin := rin s;
     rwrites := rwrites s; trace := trace s ++ [ev] |}.

Definition set_cin (l : list byte) (s : State) : State :=
  {| cin := l; cwrites := cwrites s; remote := remote s; rin := rin s;
     rwrites := rwrites s; trace := trace s |}.

Definition set_rin (l : list byte) (s : State) : State :=
  {| cin := cin s; cwrites := cwrites s; remote := remote s; rin := l;
     rwrites := rwrites s; trace := trace s |}.

Definition bump_cwrites (s : State) : State :=
  {| cin := cin s; cwrites := S (cwrites s); remote := remote s; rin := rin s;
     rwrites := rwrites s; trace := trace s |}.

Definition bump_rwrites (s : State) : State :=
  {| cin := cin s; cwrites := cwrites s; remote := remote s; rin := rin s;
     rwrites := S (rwrites s); trace := trace s |}.

Definition open_remote (c : TCPConn) (s : State) : State :=
  {| cin := cin s; cwrites := cwrites s; remote := Some c; rin := incoming c;
     rwrites := 0; trace := trace s |}.

(** ** A monad for straight-line code with early [return] *)

Inductive outcome (A : Type) :=
| Next (a : A)      (* control falls through to the next statement *)
| Return            (* the function returned *)
| Panic.            (* the goroutine panicked *)
Arguments Next {A} a.
Arguments Return {A}.
Arguments Panic {A}.

Definition M (A : Type) : Type := State -> State * outcome A.

Definition ret {A} (a : A) : M A := fun s => (s, Next a).

Definition bind {A B} (m : M A) (k : A -> M B) : M B :=
  fun s =>
    match m s with
    | (s', Next a) => k a s'
    | (s', Return) => (s', Return)
    | (s', Panic) => (s', Panic)
    end.

Declare Scope go_scope.
Delimit Scope go_scope with go.
Notation "x <- m ;; k" := (bind m (fun x => k))
  (at level 61, m at next level, right associativity) : go_scope.
Notation "m ;; k" := (bind m (fun _ => k))
  (at level 61, right associativity) : go_scope.
Notation "' pat <- m ;; k" := (bind m (fun x => match x with pat => k end))
  (at level 61, pat pattern, m at next level, right associativity) : go_scope.
Open Scope go_scope.

Definition log (m : logmsg) : M unit := fun s => (emit (Log m) s, Next tt).

Definition return_ {A} : M A := fun s => (s, Return).

Definition panic {A} : M A := fun s => (s, Panic).

(** [if c { log.Printf(m); return }] *)
Definition return_if (c : bool) (m : logmsg) : M unit :=
  if c then log m ;; return_ else ret tt.

(** [_, err = io.ReadFull(client, buf); if err != nil { log.Printf(m); return }]
    with [len(buf) = n].  The read fails exactly when the client's stream
    ends before [n] bytes have arrived; what had arrived is consumed. *)
Definition readFull (n : nat) (m : logmsg) : M (list byte) :=
  fun s =>
    if (length (cin s) <? n)%nat then
      (emit (Log m) (emit (ClientRead (cin s)) (set_cin [] s)), Return)
    else
      (emit (ClientRead (firstn n (cin s))) (set_cin (skipn n (cin s)) s),
       Next (firstn n (cin s))).

(** [client.Write(bs)] *)
Definition clientWrite (e : Env) (bs : list byte) : M write_result :=
  fun s =>
    (emit (ClientWrite bs) (bump_cwrites s),
     Next (wr (client e) (cwrites s) bs)).

(** [net.LookupIP(string(host))] *)
Definition lookupIP (e : Env) (host : list byte)
  : M (option (list (list byte))) :=
  fun s => (emit (Lookup host) s, Next (LookupIP e host)).

(** [net.DialTCP("tcp", nil, a)] *)
Definition dialTCP (e : Env) (a : TCPAddr) : M (option TCPConn) :=
  fun s =>
    match DialTCP e a with
    | Some c => (emit (Dial a) (open_remote c s), Next (Some c))
    | None => (emit (Dial a) s, Next None)
    end.

Definition at_ (i : nat) (l : list byte) : byte := nth i l x00.

Definition is_err (r : write_result) : bool :=
  match werr r with Some _ => true | None => false end.

(** ** [clientLoop], lines 41-83: greeting and method selection *)

Definition greeting (e : Env) : M unit :=
  versionMethod <- readFull 2 LogReadVersionMethods ;;
  return_if (negb (Byte.eqb (at_ 0 versionMethod) x05))
            (LogOnlySocks5 (at_ 0 versionMethod)) ;;
  let nMethods := at_ 1 versionMethod in
  return_if (Byte.eqb nMethods x00) LogNoMethods ;;
  methods <- readFull (b2n nMethods) LogReadMethods ;;
  let hasMethod0 := existsb (fun m => Byte.eqb m x00) methods in
  return_if (negb hasMethod0) LogOnlyNoAuth ;;
  let versionMethod := store 1 x00 versionMethod in
  r <- clientWrite e versionMethod ;;
  return_if (is_err r || negb (nw r =? length versionMethod)%nat)
            LogWriteVersionMethod.

(** ** [clientLoop], lines 85-164: the request *)

(** The port of a request: [int(hi)<<8 + int(lo)]. *)
Definition port_of (hi lo : byte) : Z := Z.shiftl (b2z hi) 8 + b2z lo.

(** Lines 121-122: the address in [buf], an [ipLen]-byte IP and then the
    port, high byte first.  [ipLen] is a [byte], so [ipLen+1] wraps. *)
Definition decode_address (ipLen : Z) (buf : list byte) : TCPAddr :=
  {| IP := firstn (Z.to_nat ipLen) buf;
     Port := port_of (at_ (Z.to_nat ipLen) buf)
                     (at_ (Z.to_nat (wrap8 (ipLen + 1))) buf) |}.

(** Lines 92-164: what is done with the four header bytes. *)
Definition dispatch (e : Env) (requestHeader : list byte)
  : M (TCPAddr * list byte) :=
  let reply := repeat x00 22 in
  let reply := store 0 x05 reply in
  let reply := store 2 x00 reply in
  return_if (negb (Byte.eqb (at_ 0 requestHeader) x05))
            (LogRequestVersion (at_ 0 requestHeader)) ;;
  (if negb (Byte.eqb (at_ 1 requestHeader) x01) then
     log LogOnlyConnect ;;
     let reply := store 1 x07 reply in
     _ <- clientWrite e (firstn 4 reply) ;;
     return_
   else ret tt) ;;
  return_if (negb (Byte.eqb (at_ 2 requestHeader) x00)) LogReserved ;;
  let atyp := at_ 3 requestHeader in
  '(remoteAddress, reply) <-
    (if Byte.eqb atyp x01 || Byte.eqb atyp x04 then
       let ipLen := wrap8 (4 * b2z atyp) in
       buf <- readFull (Z.to_nat (wrap8 (ipLen + 2))) LogReadAddress ;;
       ret (decode_address ipLen buf, store 3 atyp reply)
     else if Byte.eqb atyp x03 then
       hostLen <- readFull 1 LogReadHostLen ;;
       host <- readFull (b2n (at_ 0 hostLen)) LogReadHostName ;;
       ips <- lookupIP e host ;;
       match ips with
       | None => log LogResolve ;; return_
       | Some [] => log (LogNoIP host) ;; return_
       | Some (ip0 :: _) =>
           let reply := store 3 (z2b (Z.of_nat (length ip0) / 4)) reply in
           port <- readFull 2 LogReadPort ;;
           ret ({| IP := ip0; Port := port_of (at_ 0 port) (at_ 1 port) |},
                reply)
       end
     else
       log (LogUnknownAddressType atyp) ;;
       let reply := store 1 x08 reply in
       _ <- clientWrite e (firstn 4 reply) ;;
       return_) ;;
  log (LogRequestedAddress remoteAddress) ;;
  ret (remoteAddress, reply).

(** Lines 85-164. *)
Definition request (e : Env) : M (TCPAddr * list byte) :=
  requestHeader <- readFull 4 LogReadRequestHeader ;;
  dispatch e requestHeader.

(** ** [clientLoop], lines 166-184: dial and reply *)

Definition connect (e : Env) (remoteAddress : TCPAddr) (reply : list byte)
  : M TCPConn :=
  r <- dialTCP e remoteAddress ;;
  match r with
  | None =>
      log LogConnect ;;
      let reply := store 1 x05 reply in
      _ <- clientWrite e (firstn 6 reply) ;;
      return_
  | Some c => ret c
  end.

(** Indexing or slicing the 22-byte array out of range panics. *)
Definition check (ok : bool) : M unit := if ok then ret tt else panic.

Definition sendReply (e : Env) (remoteAddress : TCPAddr) (reply : list byte)
  : M unit :=
  let reply := store 1 x00 reply in
  let ipEnd := wrap8 (4 + 4 * b2z (at_ 3 reply)) in
  check ((4 <=? ipEnd) && (ipEnd <=? 22)) ;;
  let reply := copy 4 (Z.to_nat ipEnd) (IP remoteAddress) reply in
  check (ipEnd <? 22) ;;
  let reply :=
    store (Z.to_nat ipEnd) (z2b (Z.shiftr (Port remoteAddress) 8)) reply in
  check (wrap8 (ipEnd + 1) <? 22) ;;
  let reply :=
    store (Z.to_nat (wrap8 (ipEnd + 1)))
          (z2b (Z.rem (Port remoteAddress) 256)) reply in
  check (wrap8 (ipEnd + 2) <=? 22) ;;
  r <- clientWrite e (firstn (Z.to_nat (wrap8 (ipEnd + 2))) reply) ;;
  return_if (is_err r) LogWriteReply.

(** Lines 85-184: what [clientLoop] does once the greeting is accepted. *)
Definition after_greeting (e : Env) : M TCPConn :=
  '(remoteAddress, reply) <- request e ;;
  c <- connect e remoteAddress reply ;;
  sendReply e remoteAddress reply ;;
  ret c.

(** Lines 41-184: everything before the relay starts. *)
Definition negotiate (e : Env) : M TCPConn :=
  greeting e ;; after_greeting e.

(** ** The relay: [readClientLoop] and [readRemoteLoop]

    Both loops can run for ever, so they take fuel: one unit per [Read] or
    [Write] call.  [None] means the fuel ran out before the loop returned. *)

(** [c.Read(buf[:])] with [buf] of 4096 bytes, on a socket with [unread]
    still to deliver: the data, the error, and what stays unread.  Once the
    peer's bytes are used up every call returns [0] and the socket's
    [ending]. *)
Definition sockRead (c : TCPConn) (unread : list byte)
  : list byte * option error * list byte :=
  match unread with
  | [] => ([], Some (ending c), [])
  | _ :: _ => (firstn 4096 unread, None, skipn 4096 unread)
  end.

(** Lines 207-215: [for start < nr { nw, err := remote.Write(buf[start:nr]) ... }];
    [chunk] is [buf[start:nr]]. *)
Fixpoint writeRemote (fuel : nat) (r : TCPConn) (chunk : list byte) (s : State)
  : option (State * outcome unit) :=
  match chunk with
  | [] => Some (s, Next tt)
  | _ :: _ =>
      match fuel with
      | O => None
      | S fuel' =>
          let res := wr r (rwrites s) chunk in
          let s1 := emit (RemoteWrite chunk) (bump_rwrites s) in
          match werr res with
          | Some OtherError => Some (emit (Log LogWriteRemote) s1, Return)
          | _ => writeRemote fuel' r (skipn (nw res) chunk) s1
          end
      end
  end.

(** Lines 199-216.  The result is the state in which the loop returned (and
    sent on [stopChan]). *)
Fixpoint readClientLoop (fuel : nat) (c r : TCPConn) (s : State)
  : option State :=
  match fuel with
  | O => None
  | S fuel' =>
      let '(got, err, rest) := sockRead c (cin s) in
      let s1 := emit (ClientRead got) (set_cin rest s) in
      match err with
      | Some OtherError => Some (emit (Log LogReadClient) s1)
      | _ =>
          match writeRemote fuel' r got s1 with
          | None => None
          | Some (s2, Next _) => readClientLoop fuel' c r s2
          | Some (s2, _) => Some s2
          end
      end
  end.

(** Lines 233-241. *)
Fixpoint writeClient (fuel : nat) (c : TCPConn) (chunk : list byte) (s : State)
  : option (State * outcome unit) :=
  match chunk with
  | [] => Some (s, Next tt)
  | _ :: _ =>
      match fuel with
      | O => None
      | S fuel' =>
          let res := wr c (cwrites s) chunk in
          let s1 := emit (ClientWrite chunk) (bump_cwrites s) in
          match werr res with
          | Some OtherError => Some (emit (Log LogWriteClient) s1, Return)
          | _ => writeClient fuel' c (skipn (nw res) chunk) s1
          end
      end
  end.

(** Lines 225-242. *)
Fixpoint readRemoteLoop (fuel : nat) (c r : TCPConn) (s : State)
  : option State :=
  match fuel with
  | O => None
  | S fuel' =>
      let '(got, err, rest) := sockRead r (rin s) in
      let s1 := emit (RemoteRead got) (set_rin rest s) in
      match err with
      | Some OtherError => Some (emit (Log LogReadRemote) s1)
      | _ =>
          match writeClient fuel' c got s1 with
          | None => None
          | Some (s2, Next _) => readRemoteLoop fuel' c r s2
          | Some (s2, _) => Some s2
          end
      end
  end.

(** ** [clientLoop] *)

(** The deferred calls, last registered first: [remote.Close()] if the dial
    succeeded, then [client.Close()]. *)
Definition deferred (s : State) : State :=
  emit CloseClient
       (match remote s with Some _ => emit CloseRemote s | None => s end).

Definition initial (e : Env) : State :=
  {| cin := incoming (client e); cwrites := 0; remote := None; rin := [];
     rwrites := 0; trace := [] |}.

(** Lines 186-190: the two goroutines and the two receives on [stopChan].
    The first loop only reads the client and writes the remote, the second
    only reads the remote and writes the client, so what each one does does
    not depend on how they are interleaved; the model runs one after the
    other.  [clientLoop] gets past the two receives exactly when both loops
    have returned. *)
Definition relay (fuel : nat) (c r : TCPConn) (s : State) : option State :=
  match readClientLoop fuel c r s with
  | None => None
  | Some s1 => readRemoteLoop fuel c r s1
  end.

Definition clientLoop (fuel : nat) (e : Env) : option State :=
  match negotiate e (initial e) with
  | (s, Next r) =>
      match relay fuel (client e) r s with
      | None => None
      | Some s' => Some (deferred s')
      end
  | (s, Return) => Some (deferred s)
  | (s, Panic) => Some (emit Crash (deferred s))
  end.

(** ** Observations on a finished run *)

(** The slices handed to [client.Write], in order. *)
Fixpoint written (t : list event) : list (list byte) :=
  match t with
  | [] => []
  | ClientWrite bs :: t' => bs :: written t'
  | _ :: t' => written t'
  end.

(** The addresses dialled, in order. *)
Fixpoint dialled (t : list event) : list TCPAddr :=
  match t with
  | [] => []
  | Dial a :: t' => a :: dialled t'
  | _ :: t' => dialled t'
  end.

(** Closing the client socket was the last thing the goroutine did. *)
Definition closed (s : State) : Prop := last (trace s) Crash = CloseClient.

(** ** Concrete environments *)

Definition write_all : nat -> list byte -> write_result :=
  fun _ bs => {| nw := length bs; werr := None |}.

Definition sock (bs : list byte) (e : error) : TCPConn :=
  {| incoming := bs; ending := e; wr := write_all;
     LocalAddr := {| IP := [x0a; x00; x00; x02]; Port := 40000 |} |}.

Definition no_dns : list byte -> option (list (list byte)) := fun _ => None.
Definition no_route : TCPAddr -> option TCPConn := fun _ => None.

Definition env (bs : list byte) dns dial : Env :=
  {| client := sock bs OtherError; LookupIP := dns; DialTCP := dial |}.

(** A client that sends a greeting and an IPv4 request for 1.2.3.4:443 and
    then closes its side, and a target that is reached, sends one byte and
    closes too: every [Read] past the data returns [os.EOF]. *)
Definition eof_env : Env :=
  {| client := sock [x05; x01; x00;
                     x05; x01; x00; x01; x01; x02; x03; x04; x01; xbb] EOF;
     LookupIP := no_dns;
     DialTCP := fun _ => Some (sock [x41] EOF) |}.

(** ** Vocabulary of the statements *)

(** The client sends a well-formed greeting (version 5, [n >= 1] methods,
    exactly [n] method bytes) followed by [rest]. *)
Definition greets (e : Env) (n : byte) (methods rest : list byte) : Prop :=
  incoming (client e) = x05 :: n :: methods ++ rest /\
  n <> x00 /\
  length methods = b2n n.

(** The client socket takes the two bytes of the method selection. *)
Definition selection_sent (e : Env) : Prop :=
  werr (wr (client e) 0%nat [x05; x00]) = None /\
  nw (wr (client e) 0%nat [x05; x00]) = 2%nat.

(** The state at line 85, after an accepted greeting. *)
Definition post_greeting (n : byte) (methods rest : list byte) : State :=
  {| cin := rest; cwrites := 1; remote := None; rin := []; rwrites := 0;
     trace := [ClientRead [x05; n]; ClientRead methods;
               ClientWrite [x05; x00]] |}.

(** The greeting was accepted and the client's next bytes are [req]. *)
Definition negotiated (e : Env) (n : byte) (methods req : list byte) : Prop :=
  greets e n methods req /\ In x00 methods /\ selection_sent e.

(** The state at line 92, the four header bytes read. *)
Definition post_header (n : byte) (methods hdr rest : list byte) : State :=
  emit (ClientRead hdr) (set_cin rest (post_greeting n methods (hdr ++ rest))).

(** The [reply] array as line 94 leaves it. *)
Definition reply_init : list byte := store 2 x00 (store 0 x05 (repeat x00 22)).

(** The frame of lines 175-180 for a 4- or 16-byte address. *)
Definition success_frame (a : TCPAddr) : list byte :=
  [x05; x00; x00; z2b (Z.of_nat (length (IP a)) / 4)] ++ IP a ++
  [z2b (Z.shiftr (Port a) 8); z2b (Z.rem (Port a) 256)].

(** The frame of lines 169-170. *)
Definition failure_frame (a : TCPAddr) : list byte :=
  [x05; x05; x00; z2b (Z.of_nat (length (IP a)) / 4); x00; x00].

(** A 4- or 16-byte address: what [net.IP] holds. *)
Definition ip_sized (ip : list byte) : Prop :=
  length ip = 4%nat \/ length ip = 16%nat.

(** The resolver only returns 4- or 16-byte addresses. *)
Definition sane_dns (e : Env) : Prop :=
  forall host ips ip, LookupIP e host = Some ips -> In ip ips -> ip_sized ip.

(** A step that dials nothing. *)
Definition quiet {A} (m : M A) : Prop :=
  forall s, dialled (trace (fst (m s))) = dialled (trace s).

(** The state in which [net.LookupIP] has just been called. *)
Definition post_lookup (n : byte) (methods : list byte) (L : byte)
  (host rest : list byte) : State :=
  {| cin := rest; cwrites := 1; remote := None; rin := []; rwrites := 0;
     trace := [ClientRead [x05; n]; ClientRead methods;
               ClientWrite [x05; x00];
               ClientRead [x05; x01; x00; x03];
               ClientRead [L]; ClientRead host; Lookup host] |}.

(** No [Write] on the socket ever reports an error other than [os.EOF]. *)
Definition accepts_writes (c : TCPConn) : Prop :=
  forall k bs, werr (wr c k bs) <> Some OtherError.

(** Lines 166-184 for a request that resolved to [target]: the address
    type in [reply] is the length of the target's IP over four. *)
Definition after_request (e : Env) (target : TCPAddr) : M TCPConn :=
  c <- connect e target
         (store 3 (z2b (Z.of_nat (length (IP target)) / 4)) reply_init) ;;
  sendReply e target
    (store 3 (z2b (Z.of_nat (length (IP target)) / 4)) reply_init) ;;
  ret c.

(** A step only ever adds to the trace. *)
Definition extends {A} (m : M A) : Prop :=
  forall s, exists post, trace (fst (m s)) = trace s ++ post.

(** ** [main], lines 15-35 *)

(** What one call of [listener.AcceptTCP] returns: a client socket, or an
    error that says whether it is [Temporary]. *)
Inductive accept_result :=
| Accepted (c : TCPConn)
| AcceptFailed (temporary : bool).

(** How [main] ends: the process exits with a status, or it sits in
    [AcceptTCP] with no further connection coming. *)
Inductive main_end :=
| Exited (status : Z)
| Accepting.

(** Lines 24-34, over the results of the successive [AcceptTCP] calls: the
    sockets handed to [go clientLoop], in order, and how the loop ends.
    [log.Fatalf] (line 27) prints and calls [os.Exit(1)], so lines 28-31
    are never reached. *)
Fixpoint acceptLoop (accepts : list accept_result) : list TCPConn * main_end :=
  match accepts with
  | [] => ([], Accepting)
  | Accepted c :: rest =>
      let (served, e) := acceptLoop rest in (c :: served, e)
  | AcceptFailed _ :: _ => ([], Exited 1)
  end.

(** [net.ListenTCP] either fails or gives a listener, seen as the results
    of its [AcceptTCP] calls. *)
Definition main (flagPort : Z)
  (ListenTCP : TCPAddr -> option (list accept_result))
  : list TCPConn * main_end :=
  match ListenTCP {| IP := [x00; x00; x00; x00]; Port := flagPort |} with
  | None => ([], Exited 1)
  | Some accepts => acceptLoop accepts
  end.

(** ** More vocabulary *)

(** The slices handed to [remote.Write], in order. *)
Fixpoint remote_written (t : list event) : list (list byte) :=
  match t with
  | [] => []
  | RemoteWrite bs :: t' => bs :: remote_written t'
  | _ :: t' => remote_written t'
  end.

(** The lookups made, in order. *)
Fixpoint looked_up (t : list event) : list (list byte) :=
  match t with
  | [] => []
  | Lookup host :: t' => host :: looked_up t'
  | _ :: t' => looked_up t'
  end.

(** The bytes a socket took of the slices handed to its [Write], the first
    of them being its [k]-th call: of each slice, the [nw] first bytes. *)
Fixpoint delivered (w : nat -> list byte -> write_result) (k : nat)
  (slices : list (list byte)) : list byte :=
  match slices with
  | [] => []
  | bs :: rest => firstn (nw (w k bs)) bs ++ delivered w (S k) rest
  end.

(** Every [Write] of a non-empty slice takes at least one byte and reports
    no error other than [os.EOF]. *)
Definition progressing (c : TCPConn) : Prop :=
  forall k bs, bs <> [] ->
    werr (wr c k bs) <> Some OtherError /\ (1 <= nw (wr c k bs))%nat.

(** A step that leaves the remote side alone. *)
Definition client_only {A} (m : M A) : Prop :=
  forall s,
    remote (fst (m s)) = remote s /\ rin (fst (m s)) = rin s /\
    rwrites (fst (m s)) = rwrites s /\
    remote_written (trace (fst (m s))) = remote_written (trace s).

(** A step that writes nothing to the client. *)
Definition mute {A} (m : M A) : Prop :=
  forall s, written (trace (fst (m s))) = written (trace s).

(** A step that writes nothing, or writes one of the two four-byte
    rejections and returns. *)
Definition replies_early {A} (m : M A) : Prop :=
  forall s, exists ws,
    written (trace (fst (m s))) = written (trace s) ++ ws /\
    (ws = [] \/
     (snd (m s) = Return /\
      (ws = [[x05; x07; x00; x00]] \/ ws = [[x05; x08; x00; x00]]))).

(** A step that does not panic. *)
Definition safe {A} (m : M A) : Prop := forall s, snd (m s) <> Panic.

(** The count of [Write] calls on the client socket agrees with the trace. *)
Definition counted (s : State) : Prop :=
  cwrites s = length (written (trace s)).

(** A step that keeps that count right. *)
Definition keeps_count {A} (m : M A) : Prop :=
  forall s, counted s -> counted (fst (m s)).

(** A step that reads nothing from the client. *)
Definition keeps_cin {A} (m : M A) : Prop :=
  forall s, cin (fst (m s)) = cin s.

(** * Properties *)

(** ** Bytes *)

Lemma b2z_range (b : byte) : 0 <= b2z b < 256.
Proof.
  unfold b2z. pose proof (Byte.to_N_bounded b). lia.
Qed.

Lemma z2b_b2z (b : byte) : z2b (b2z b) = b.
Proof.
  unfold z2b. rewrite Z.mod_small by apply b2z_range.
  unfold b2z. rewrite N2Z.id, Byte.of_to_N. reflexivity.
Qed.

Lemma b2z_z2b (z : Z) : b2z (z2b z) = z mod 256.
Proof.
  unfold z2b, b2z.
  assert (Hr : 0 <= z mod 256 < 256) by (apply Z.mod_pos_bound; lia).
  destruct (Byte.of_N (Z.to_N (z mod 256))) as [b|] eqn:E.
  - apply Byte.to_of_N in E. rewrite E. lia.
  - apply Byte.of_N_None_iff in E. lia.
Qed.

Lemma eqb_refl (b : byte) : Byte.eqb b b = true.
Proof. apply Byte.byte_dec_lb. reflexivity. Qed.

Lemma eqb_neq (a b : byte) : a <> b -> Byte.eqb a b = false.
Proof.
  intros H. destruct (Byte.eqb a b) eqn:E; [|reflexivity].
  apply Byte.byte_dec_bl in E. contradiction.
Qed.

(** The port of a request is a 16-bit number, and splitting it the way the
    reply does gives back the two bytes it was read from. *)
Lemma port_of_range (hi lo : byte) : 0 <= port_of hi lo < 65536.
Proof.
  unfold port_of. rewrite Z.shiftl_mul_pow2 by lia.
  pose proof (b2z_range hi). pose proof (b2z_range lo).
  change (2 ^ 8) with 256. lia.
Qed.

Lemma port_hi (hi lo : byte) : z2b (Z.shiftr (port_of hi lo) 8) = hi.
Proof.
  unfold port_of. rewrite Z.shiftl_mul_pow2, Z.shiftr_div_pow2 by lia.
  pose proof (b2z_range hi). pose proof (b2z_range lo).
  change (2 ^ 8) with 256.
  replace ((b2z hi * 256 + b2z lo) / 256) with (b2z hi).
  - apply z2b_b2z.
  - symmetry. rewrite Z.add_comm, Z.div_add by lia.
    rewrite Z.div_small by lia. reflexivity.
Qed.

Lemma port_lo (hi lo : byte) : z2b (Z.rem (port_of hi lo) 256) = lo.
Proof.
  pose proof (port_of_range hi lo).
  rewrite Z.rem_mod_nonneg by lia.
  unfold port_of. rewrite Z.shiftl_mul_pow2 by lia.
  pose proof (b2z_range lo).
  change (2 ^ 8) with 256.
  rewrite Z.add_comm, Z.mod_add by lia.
  rewrite Z.mod_small by lia. apply z2b_b2z.
Qed.

(** The method scan of lines 66-72 finds [0x00] exactly when it is offered. *)
Lemma hasMethod0_In (methods : list byte) :
  existsb (fun m => Byte.eqb m x00) methods = true <-> In x00 methods.
Proof.
  rewrite existsb_exists. split.
  - intros [m [Hin Hm]]. apply Byte.byte_dec_bl in Hm. subst. exact Hin.
  - intros Hin. exists x00. split; [exact Hin | apply eqb_refl].
Qed.

(** ** Stepping the monad *)

Lemma bind_Next {A B} (m : M A) (k : A -> M B) s s' a :
  m s = (s', Next a) -> bind m k s = k a s'.
Proof. unfold bind. intros ->. reflexivity. Qed.

Lemma bind_Return {A B} (m : M A) (k : A -> M B) s s' :
  m s = (s', Return) -> bind m k s = (s', Return).
Proof. unfold bind. intros ->. reflexivity. Qed.

(** A read of [length pre] bytes takes exactly [pre] off the front. *)
Lemma readFull_app (pre rest : list byte) (m : logmsg) (s : State) :
  cin s = pre ++ rest ->
  readFull (length pre) m s
  = (emit (ClientRead pre) (set_cin rest s), Next pre).
Proof.
  intros H. unfold readFull. rewrite H.
  replace (length (pre ++ rest) <? length pre)%nat with false.
  - rewrite firstn_app, Nat.sub_diag, firstn_all, skipn_app, Nat.sub_diag.
    rewrite skipn_all. simpl. rewrite app_nil_r. reflexivity.
  - symmetry. apply Nat.ltb_ge. rewrite length_app. lia.
Qed.

(** A read of more bytes than the client sends fails and returns. *)
Lemma readFull_short (n : nat) (m : logmsg) (s : State) :
  (length (cin s) < n)%nat ->
  readFull n m s
  = (emit (Log m) (emit (ClientRead (cin s)) (set_cin [] s)), Return).
Proof.
  intros H. unfold readFull.
  apply Nat.ltb_lt in H. rewrite H. reflexivity.
Qed.

(** ** The greeting *)

Lemma negotiate_split (e : Env) :
  negotiate e = (greeting e ;; after_greeting e).
Proof. reflexivity. Qed.

(** The state in which the method scan is reached. *)
Lemma greeting_read (e : Env) n methods rest :
  greets e n methods rest ->
  greeting e (initial e)
  = (let hasMethod0 := existsb (fun m => Byte.eqb m x00) methods in
     return_if (negb hasMethod0) LogOnlyNoAuth ;;
     r <- clientWrite e [x05; x00] ;;
     return_if (is_err r || negb (nw r =? 2)%nat) LogWriteVersionMethod)
      {| cin := rest; cwrites := 0; remote := None; rin := []; rwrites := 0;
         trace := [ClientRead [x05; n]; ClientRead methods] |}.
Proof.
  intros (Hin & Hn & Hlen). unfold greeting.
  rewrite (bind_Next _ _ (initial e) _ [x05; n]
             (readFull_app [x05; n] (methods ++ rest) _ (initial e) Hin)).
  cbn [at_ nth]. rewrite eqb_refl. cbn [negb return_if].
  rewrite (bind_Next _ _ _ _ tt eq_refl).
  rewrite (eqb_neq _ _ Hn). cbn [return_if].
  rewrite (bind_Next _ _ _ _ tt eq_refl).
  rewrite <- Hlen.
  erewrite bind_Next by (apply readFull_app; reflexivity).
  reflexivity.
Qed.

Lemma greeting_accepted (e : Env) n methods rest :
  greets e n methods rest ->
  In x00 methods ->
  selection_sent e ->
  greeting e (initial e) = (post_greeting n methods rest, Next tt).
Proof.
  intros G H0 (Herr & Hnw). rewrite (greeting_read e n methods rest G).
  apply hasMethod0_In in H0. cbv zeta. rewrite H0.
  unfold bind, return_if, clientWrite, is_err; simpl.
  rewrite Herr, Hnw. reflexivity.
Qed.

Lemma greeting_refused (e : Env) n methods rest :
  greets e n methods rest ->
  ~ In x00 methods ->
  greeting e (initial e)
  = ({| cin := rest; cwrites := 0; remote := None; rin := []; rwrites := 0;
        trace := [ClientRead [x05; n]; ClientRead methods;
                  Log LogOnlyNoAuth] |}, Return).
Proof.
  intros G H0. rewrite (greeting_read e n methods rest G).
  destruct (existsb (fun m => Byte.eqb m x00) methods) eqn:E.
  - apply hasMethod0_In in E. contradiction.
  - reflexivity.
Qed.

Lemma negotiate_after (e : Env) n methods req :
  negotiated e n methods req ->
  negotiate e (initial e)
  = after_greeting e (post_greeting n methods req).
Proof.
  intros (G & H0 & Hs). rewrite negotiate_split.
  apply (bind_Next (greeting e) (fun _ => after_greeting e) _ _ tt).
  apply greeting_accepted; assumption.
Qed.

(** ** What the trace of a finished run holds *)

Lemma written_app (t u : list event) : written (t ++ u) = written t ++ written u.
Proof.
  induction t as [|ev t IH]; simpl; [reflexivity|].
  destruct ev; simpl; rewrite IH; reflexivity.
Qed.

Lemma dialled_app (t u : list event) : dialled (t ++ u) = dialled t ++ dialled u.
Proof.
  induction t as [|ev t IH]; simpl; [reflexivity|].
  destruct ev; simpl; rewrite IH; reflexivity.
Qed.

Lemma closed_deferred (s : State) : closed (deferred s).
Proof.
  unfold closed, deferred. destruct (remote s); simpl; apply last_last.
Qed.

Lemma written_deferred (s : State) :
  written (trace (deferred s)) = written (trace s).
Proof.
  unfold deferred. destruct (remote s); simpl;
    rewrite ?written_app; simpl; rewrite ?app_nil_r; reflexivity.
Qed.

(** A run whose negotiation returns early is a finished run, whatever the
    fuel: the relay is never entered. *)
Lemma clientLoop_returns (e : Env) (s : State) (fuel : nat) :
  negotiate e (initial e) = (s, Return) ->
  clientLoop fuel e = Some (deferred s).
Proof. unfold clientLoop. intros ->. reflexivity. Qed.

Lemma clientLoop_early (e : Env) (s : State) (fuel : nat) (ws : list (list byte)) :
  negotiate e (initial e) = (s, Return) ->
  written (trace s) = ws ->
  exists s', clientLoop fuel e = Some s' /\ written (trace s') = ws /\ closed s'.
Proof.
  intros Hn Hw. exists (deferred s). split; [|split].
  - apply clientLoop_returns. exact Hn.
  - rewrite written_deferred. exact Hw.
  - apply closed_deferred.
Qed.

(** ** The request header *)

Lemma request_header (e : Env) n methods v cmd rsv atyp rest :
  request e (post_greeting n methods (v :: cmd :: rsv :: atyp :: rest))
  = dispatch e [v; cmd; rsv; atyp]
      (post_header n methods [v; cmd; rsv; atyp] rest).
Proof.
  unfold request.
  apply (bind_Next (readFull 4 LogReadRequestHeader) (dispatch e)).
  exact (readFull_app [v; cmd; rsv; atyp] rest _
           (post_greeting n methods (v :: cmd :: rsv :: atyp :: rest)) eq_refl).
Qed.

(** When the request is turned away, nothing after it runs. *)
Lemma after_greeting_Return (e : Env) s s' :
  request e s = (s', Return) -> after_greeting e s = (s', Return).
Proof. intros H. unfold after_greeting. apply bind_Return. exact H. Qed.

Lemma command_rejected (e : Env) n methods cmd rsv atyp rest :
  cmd <> x01 ->
  exists s,
    after_greeting e (post_greeting n methods (x05 :: cmd :: rsv :: atyp :: rest))
    = (s, Return) /\
    written (trace s) = [[x05; x00]; [x05; x07; x00; x00]].
Proof.
  intros Hc. eexists. split.
  - apply after_greeting_Return. rewrite request_header.
    unfold dispatch. cbn [at_ nth].
    rewrite eqb_refl, (eqb_neq _ _ Hc). reflexivity.
  - reflexivity.
Qed.

Lemma version_rejected (e : Env) n methods v cmd rsv atyp rest :
  v <> x05 ->
  exists s,
    after_greeting e (post_greeting n methods (v :: cmd :: rsv :: atyp :: rest))
    = (s, Return) /\
    written (trace s) = [[x05; x00]].
Proof.
  intros Hv. eexists. split.
  - apply after_greeting_Return. rewrite request_header.
    unfold dispatch. cbn [at_ nth].
    rewrite (eqb_neq _ _ Hv). reflexivity.
  - reflexivity.
Qed.

Lemma reserved_rejected (e : Env) n methods rsv atyp rest :
  rsv <> x00 ->
  exists s,
    after_greeting e (post_greeting n methods (x05 :: x01 :: rsv :: atyp :: rest))
    = (s, Return) /\
    written (trace s) = [[x05; x00]].
Proof.
  intros Hr. eexists. split.
  - apply after_greeting_Return. rewrite request_header.
    unfold dispatch. cbn [at_ nth].
    rewrite (eqb_neq _ _ Hr). reflexivity.
  - reflexivity.
Qed.

Lemma address_type_rejected (e : Env) n methods atyp rest :
  atyp <> x01 -> atyp <> x03 -> atyp <> x04 ->
  exists s,
    after_greeting e (post_greeting n methods (x05 :: x01 :: x00 :: atyp :: rest))
    = (s, Return) /\
    written (trace s) = [[x05; x00]; [x05; x08; x00; x00]].
Proof.
  intros H1 H3 H4. eexists. split.
  - apply after_greeting_Return. rewrite request_header.
    unfold dispatch. cbn [at_ nth].
    rewrite (eqb_neq _ _ H1), (eqb_neq _ _ H3), (eqb_neq _ _ H4). reflexivity.
  - reflexivity.
Qed.

(** ** Dial and reply *)

Ltac explode ip :=
  repeat (destruct ip as [|? ip]; [discriminate|]);
  destruct ip; [|discriminate].

Lemma sendReply_frame (e : Env) (a : TCPAddr) (s : State) :
  ip_sized (IP a) ->
  sendReply e a (store 3 (z2b (Z.of_nat (length (IP a)) / 4)) reply_init) s
  = return_if (is_err (wr (client e) (cwrites s) (success_frame a)))
              LogWriteReply
              (emit (ClientWrite (success_frame a)) (bump_cwrites s)).
Proof.
  destruct a as [ip p]. unfold ip_sized, success_frame. cbn [IP Port].
  intros [H | H]; rewrite H; explode ip; reflexivity.
Qed.

Lemma connect_refused (e : Env) (a : TCPAddr) (reply : list byte) (s : State) :
  DialTCP e a = None ->
  connect e a reply s
  = (emit (ClientWrite (firstn 6 (store 1 x05 reply)))
       (bump_cwrites (emit (Log LogConnect) (emit (Dial a) s))), Return).
Proof.
  intros H. unfold connect, bind, dialTCP. rewrite H. reflexivity.
Qed.

Lemma connect_opened (e : Env) (a : TCPAddr) (reply : list byte) (s : State) c :
  DialTCP e a = Some c ->
  connect e a reply s = (emit (Dial a) (open_remote c s), Next c).
Proof.
  intros H. unfold connect, bind, dialTCP. rewrite H. reflexivity.
Qed.

Lemma failure_frame_eq (t : byte) :
  firstn 6 (store 1 x05 (store 3 t reply_init))
  = [x05; x05; x00; t; x00; x00].
Proof. reflexivity. Qed.

(** ** Reading a run backwards *)

Lemma bind_inv {A B} (m : M A) (k : A -> M B) s s' b :
  bind m k s = (s', Next b) ->
  exists s1 a, m s = (s1, Next a) /\ k a s1 = (s', Next b).
Proof.
  unfold bind. destruct (m s) as [s1 [a | |]]; intros H; try discriminate.
  exists s1, a. split; [reflexivity | exact H].
Qed.

Lemma return_if_inv c m s s' u :
  return_if c m s = (s', Next u) -> c = false /\ s' = s.
Proof.
  destruct c; cbn; intros H; [discriminate|].
  inversion H. split; reflexivity.
Qed.

Lemma readFull_inv n m s s' bs :
  readFull n m s = (s', Next bs) ->
  length bs = n /\ bs = firstn n (cin s) /\
  s' = emit (ClientRead bs) (set_cin (skipn n (cin s)) s).
Proof.
  unfold readFull. destruct (length (cin s) <? n)%nat eqn:E; intros H.
  - discriminate.
  - inversion H. apply Nat.ltb_ge in E.
    split; [apply firstn_length_le; exact E | split; reflexivity].
Qed.

Lemma written_emit (ev : event) (s : State) :
  written (trace (emit ev s)) = written (trace s) ++ written [ev].
Proof. unfold emit. cbn [trace]. apply written_app. Qed.

Lemma dialled_emit (ev : event) (s : State) :
  dialled (trace (emit ev s)) = dialled (trace s) ++ dialled [ev].
Proof. unfold emit. cbn [trace]. apply dialled_app. Qed.

Lemma trace_set_cin (l : list byte) (s : State) :
  trace (set_cin l s) = trace s.
Proof. reflexivity. Qed.

Lemma trace_bump_cwrites (s : State) : trace (bump_cwrites s) = trace s.
Proof. reflexivity. Qed.

Lemma trace_open_remote (c : TCPConn) (s : State) :
  trace (open_remote c s) = trace s.
Proof. reflexivity. Qed.

Ltac trace_simpl :=
  repeat (rewrite trace_set_cin || rewrite trace_bump_cwrites ||
          rewrite trace_open_remote ||
          rewrite written_emit || rewrite dialled_emit);
  cbn [written dialled]; rewrite ?app_nil_r.

(** [bind m k s = (s', Next b)] in [H] becomes [m s = (s1, Next x)] in [H1]
    and [k x s1 = (s', Next b)] in [H]. *)
Tactic Notation "invert_step" hyp(H) "as" ident(s1) ident(x) ident(H1) :=
  apply bind_inv in H; destruct H as (s1 & x & H1 & H).

(** Whenever the request is accepted, the address-type byte of [reply] is
    the length of the target address over four, and nothing was written. *)
Lemma dispatch_inv (e : Env) hdr s s' a reply :
  dispatch e hdr s = (s', Next (a, reply)) ->
  reply = store 3 (z2b (Z.of_nat (length (IP a)) / 4)) reply_init /\
  (sane_dns e -> ip_sized (IP a)) /\
  written (trace s') = written (trace s) /\
  dialled (trace s') = dialled (trace s).
Proof.
  unfold dispatch, ip_sized. intros H.
  invert_step H as s1 u1 K1. apply return_if_inv in K1 as [_ ->].
  invert_step H as s2 u2 K2.
  destruct (negb (at_ 1 hdr =? x01)%byte); [discriminate|].
  inversion K2; subst s2; clear K2.
  invert_step H as s3 u3 K3. apply return_if_inv in K3 as [_ ->].
  invert_step H as s4 ar K4. destruct ar as [a' reply'].
  invert_step H as s5 u5 K5. inversion H; subst; clear H.
  inversion K5; subst; clear K5.
  trace_simpl.
  destruct ((at_ 3 hdr =? x01)%byte || (at_ 3 hdr =? x04)%byte) eqn:E.
  - apply orb_true_iff in E.
    assert (Ht : at_ 3 hdr = x01 \/ at_ 3 hdr = x04)
      by (destruct E as [E|E]; apply Byte.byte_dec_bl in E; auto).
    clear E. invert_step K4 as s6 buf K6.
    apply readFull_inv in K6 as (Hlen & _ & ->).
    inversion K4; subst; clear K4. cbn [IP decode_address].
    trace_simpl.
    destruct Ht as [Ht | Ht]; rewrite Ht in *; cbn in Hlen;
      rewrite length_firstn, Hlen;
      (split; [reflexivity | split; [|split; reflexivity]]);
      intros _; [left | right]; reflexivity.
  - destruct (at_ 3 hdr =? x03)%byte; [|discriminate].
    invert_step K4 as s6 hostLen K6.
    apply readFull_inv in K6 as (_ & _ & ->).
    invert_step K4 as s7 host K7.
    apply readFull_inv in K7 as (_ & _ & ->).
    invert_step K4 as s8 ips K8. inversion K8; subst; clear K8.
    destruct (LookupIP e host) as [[|ip0 ips]|] eqn:L; try discriminate.
    invert_step K4 as s9 port K9.
    apply readFull_inv in K9 as (_ & _ & ->).
    inversion K4; subst; clear K4. cbn [IP].
    trace_simpl.
    split; [reflexivity | split; [|split; reflexivity]].
    intros Hs. apply (Hs _ _ _ L). left. reflexivity.
Qed.

Lemma request_inv (e : Env) s s' a reply :
  request e s = (s', Next (a, reply)) ->
  reply = store 3 (z2b (Z.of_nat (length (IP a)) / 4)) reply_init /\
  (sane_dns e -> ip_sized (IP a)) /\
  written (trace s') = written (trace s) /\
  dialled (trace s') = dialled (trace s).
Proof.
  unfold request. intros H. invert_step H as s1 hdr K1.
  apply readFull_inv in K1 as (_ & _ & ->).
  apply dispatch_inv in H as (Hr & Hs & Hw & Hd).
  revert Hw Hd. trace_simpl. auto.
Qed.

(** An accepted greeting wrote the method selection and nothing else. *)
Lemma greeting_inv (e : Env) s s' u :
  greeting e s = (s', Next u) ->
  written (trace s') = written (trace s) ++ [[x05; x00]].
Proof.
  unfold greeting. intros H.
  invert_step H as s1 vm K1. apply readFull_inv in K1 as (Hlen & _ & ->).
  invert_step H as s2 u2 K2. apply return_if_inv in K2 as [Hv ->].
  invert_step H as s3 u3 K3. apply return_if_inv in K3 as [_ ->].
  invert_step H as s4 ms K4. apply readFull_inv in K4 as (_ & _ & ->).
  invert_step H as s5 u5 K5. apply return_if_inv in K5 as [_ ->].
  invert_step H as s6 r K6. inversion K6; subst; clear K6.
  apply return_if_inv in H as [_ ->].
  explode vm. cbn [at_ nth] in Hv.
  apply negb_false_iff, Byte.byte_dec_bl in Hv. subst.
  trace_simpl. reflexivity.
Qed.

(** ** Steps that do not dial *)

Lemma quiet_bind {A B} (m : M A) (k : A -> M B) :
  quiet m -> (forall a, quiet (k a)) -> quiet (bind m k).
Proof.
  intros Hm Hk s. unfold bind. specialize (Hm s).
  destruct (m s) as [s1 [a | |]]; cbn [fst] in *; try exact Hm.
  rewrite Hk. exact Hm.
Qed.

Lemma quiet_ret {A} (a : A) : quiet (ret a).
Proof. intros s. reflexivity. Qed.

Lemma quiet_return {A} : quiet (@return_ A).
Proof. intros s. reflexivity. Qed.

Lemma quiet_panic {A} : quiet (@panic A).
Proof. intros s. reflexivity. Qed.

Lemma quiet_log (m : logmsg) : quiet (log m).
Proof. intros s. unfold log. cbn [fst]. trace_simpl. reflexivity. Qed.

Lemma quiet_return_if (c : bool) (m : logmsg) : quiet (return_if c m).
Proof.
  destruct c; cbn [return_if].
  - apply quiet_bind; [apply quiet_log | intros; apply quiet_return].
  - apply quiet_ret.
Qed.

Lemma quiet_check (c : bool) : quiet (check c).
Proof. destruct c; [apply quiet_ret | apply quiet_panic]. Qed.

Lemma quiet_readFull (n : nat) (m : logmsg) : quiet (readFull n m).
Proof.
  intros s. unfold readFull.
  destruct (length (cin s) <? n)%nat; cbn [fst]; trace_simpl; reflexivity.
Qed.

Lemma quiet_clientWrite (e : Env) (bs : list byte) : quiet (clientWrite e bs).
Proof. intros s. unfold clientWrite. cbn [fst]. trace_simpl. reflexivity. Qed.

Lemma quiet_lookupIP (e : Env) (host : list byte) : quiet (lookupIP e host).
Proof. intros s. unfold lookupIP. cbn [fst]. trace_simpl. reflexivity. Qed.

Create HintDb quiet.

#[local] Hint Resolve quiet_ret quiet_return quiet_panic quiet_log
  quiet_return_if quiet_check quiet_readFull quiet_clientWrite
  quiet_lookupIP : quiet.

Ltac quiet_steps :=
  repeat (first [ apply quiet_bind; [|intros] | solve [auto with quiet] ]).

Lemma quiet_greeting (e : Env) : quiet (greeting e).
Proof. unfold greeting. quiet_steps. Qed.

Lemma quiet_dispatch (e : Env) hdr : quiet (dispatch e hdr).
Proof.
  unfold dispatch. quiet_steps.
  - destruct (negb (at_ 1 hdr =? x01)%byte); quiet_steps.
  - destruct ((at_ 3 hdr =? x01)%byte || (at_ 3 hdr =? x04)%byte);
      [quiet_steps|].
    destruct (at_ 3 hdr =? x03)%byte; quiet_steps.
    match goal with
    | |- quiet (match ?x with _ => _ end) => destruct x as [[|? ?]|]
    end; quiet_steps.
  - match goal with
    | |- quiet (let (_, _) := ?x in _) => destruct x
    end. quiet_steps.
Qed.

Lemma quiet_request (e : Env) : quiet (request e).
Proof.
  unfold request. apply quiet_bind; [auto with quiet|].
  intros. apply quiet_dispatch.
Qed.

Lemma quiet_sendReply (e : Env) a reply : quiet (sendReply e a reply).
Proof. unfold sendReply. quiet_steps. Qed.

(** ** The two ways a dial can end *)

(** A run that dialled [a] in vain got past the greeting and the request,
    wrote the failure frame and returned. *)
Lemma negotiate_dial_failed (e : Env) (a : TCPAddr) :
  In a (dialled (trace (fst (negotiate e (initial e))))) ->
  DialTCP e a = None ->
  exists s,
    negotiate e (initial e) = (s, Return) /\
    written (trace s) = [[x05; x00]; failure_frame a].
Proof.
  intros Hin Hd. rewrite negotiate_split in *.
  pose proof (quiet_greeting e (initial e)) as Qg.
  unfold bind in *.
  destruct (greeting e (initial e)) as [s1 [[] | |]] eqn:G;
    cbn [fst initial trace dialled] in *;
    try (rewrite Qg in Hin; contradiction).
  apply greeting_inv in G. cbn [initial trace written app] in G.
  unfold after_greeting in *. unfold bind in *.
  pose proof (quiet_request e s1) as Qr.
  destruct (request e s1) as [s2 [[a' reply] | |]] eqn:R;
    cbn [fst] in *; rewrite Qg in Qr;
    try (rewrite Qr in Hin; contradiction).
  apply request_inv in R as (-> & _ & Hw & _).
  destruct (DialTCP e a') as [c|] eqn:D.
  - rewrite (connect_opened e a' _ s2 c D) in Hin.
    pose proof (quiet_sendReply e a'
                  (store 3 (z2b (Z.of_nat (length (IP a')) / 4)) reply_init)
                  (emit (Dial a') (open_remote c s2))) as Qs.
    revert Qs. trace_simpl. rewrite Qr. cbn [app]. intros Qs.
    destruct (sendReply e a' _ _) as [s3 [[] | |]];
      cbn [fst ret] in *; rewrite Qs in Hin;
      destruct Hin as [<- | []]; congruence.
  - rewrite (connect_refused e a' _ s2 D) in *. cbn [fst] in Hin.
    revert Hin. trace_simpl. rewrite Qr. cbn [app].
    intros [<- | []].
    eexists. split; [reflexivity|].
    trace_simpl. rewrite Hw, G, failure_frame_eq. reflexivity.
Qed.

(** A run that reaches the relay dialled one address, reached it, and wrote
    the success frame built from that address as the last thing before the
    relay. *)
Lemma negotiate_established (e : Env) (s : State) (c : TCPConn) :
  sane_dns e ->
  negotiate e (initial e) = (s, Next c) ->
  exists pre a,
    DialTCP e a = Some c /\
    trace s = pre ++ [Dial a; ClientWrite (success_frame a)] /\
    dialled pre = [].
Proof.
  intros Hs H. rewrite negotiate_split in H.
  invert_step H as s1 u1 K1.
  pose proof (quiet_greeting e (initial e)) as Qg. rewrite K1 in Qg.
  cbn [fst initial trace dialled] in Qg.
  unfold after_greeting in H.
  invert_step H as s2 ar K2. destruct ar as [a reply].
  apply request_inv in K2 as (-> & Hip & _ & Hd). specialize (Hip Hs).
  invert_step H as s3 c' K3.
  unfold connect in K3. invert_step K3 as s4 r K4.
  unfold dialTCP in K4.
  destruct (DialTCP e a) as [c0|] eqn:D.
  2:{ inversion K4; subst. discriminate. }
  inversion K4; subst; clear K4. inversion K3; subst; clear K3.
  invert_step H as s5 u5 K5. inversion H; subst; clear H.
  rewrite (sendReply_frame e a _ Hip) in K5.
  apply return_if_inv in K5 as [_ ->].
  exists (trace s2), a. split; [exact D|]. split.
  - cbn. rewrite <- app_assoc. reflexivity.
  - rewrite Hd. exact Qg.
Qed.

(** ** Requests by address type *)

Lemma request_ipv4 (e : Env) n methods a b c d hi lo rest :
  request e (post_greeting n methods
               (x05 :: x01 :: x00 :: x01 :: a :: b :: c :: d :: hi :: lo :: rest))
  = (emit (Log (LogRequestedAddress
                  {| IP := [a; b; c; d]; Port := port_of hi lo |}))
       (emit (ClientRead [a; b; c; d; hi; lo])
          (set_cin rest
             (post_header n methods [x05; x01; x00; x01]
                (a :: b :: c :: d :: hi :: lo :: rest)))),
     Next ({| IP := [a; b; c; d]; Port := port_of hi lo |},
           store 3 x01 reply_init)).
Proof. rewrite request_header. reflexivity. Qed.

Lemma request_domain (e : Env) n methods L host rest :
  length host = b2n L ->
  request e (post_greeting n methods
               (x05 :: x01 :: x00 :: x03 :: L :: host ++ rest))
  = match LookupIP e host with
    | None => (emit (Log LogResolve) (post_lookup n methods L host rest), Return)
    | Some [] =>
        (emit (Log (LogNoIP host)) (post_lookup n methods L host rest), Return)
    | Some (ip0 :: _) =>
        (port <- readFull 2 LogReadPort ;;
         log (LogRequestedAddress
                {| IP := ip0; Port := port_of (at_ 0 port) (at_ 1 port) |}) ;;
         ret ({| IP := ip0; Port := port_of (at_ 0 port) (at_ 1 port) |},
              store 3 (z2b (Z.of_nat (length ip0) / 4)) reply_init))
          (post_lookup n methods L host rest)
    end.
Proof.
  intros Hlen. rewrite request_header. unfold dispatch.
  cbn [at_ nth]. rewrite !eqb_refl.
  change (Byte.eqb x03 x01) with false. change (Byte.eqb x03 x04) with false.
  cbn [negb orb return_if].
  rewrite (bind_Next _ _ _ _ tt eq_refl).
  rewrite (bind_Next _ _ _ _ tt eq_refl).
  rewrite (bind_Next _ _ _ _ tt eq_refl).
  unfold bind at 1.
  erewrite (bind_Next (readFull 1 LogReadHostLen))
    by (apply (readFull_app [L] (host ++ rest)); reflexivity).
  cbn [at_ nth]. rewrite <- Hlen.
  erewrite (bind_Next (readFull (length host) LogReadHostName))
    by (apply (readFull_app host rest); reflexivity).
  unfold bind at 1. unfold lookupIP at 1.
  destruct (LookupIP e host) as [[|ip0 ips]|]; try reflexivity.
  change (emit (Lookup host) _) with (post_lookup n methods L host rest).
  unfold bind.
  destruct (readFull 2 LogReadPort _) as [s' [p | |]]; reflexivity.
Qed.

(** ** The relay *)

Lemma writeRemote_goes_on (r : TCPConn) :
  accepts_writes r ->
  forall fuel chunk s s' o,
    writeRemote fuel r chunk s = Some (s', o) -> o = Next tt.
Proof.
  intros Hw. induction fuel as [|fuel IH]; intros chunk s s' o H.
  - destruct chunk; [|discriminate]. inversion H. reflexivity.
  - destruct chunk as [|b chunk]; [inversion H; reflexivity|].
    cbn [writeRemote] in H. specialize (Hw (rwrites s) (b :: chunk)).
    destruct (werr (wr r (rwrites s) (b :: chunk))) as [[]|];
      try contradiction; apply IH in H; exact H.
Qed.

Lemma writeClient_goes_on (c : TCPConn) :
  accepts_writes c ->
  forall fuel chunk s s' o,
    writeClient fuel c chunk s = Some (s', o) -> o = Next tt.
Proof.
  intros Hw. induction fuel as [|fuel IH]; intros chunk s s' o H.
  - destruct chunk; [|discriminate]. inversion H. reflexivity.
  - destruct chunk as [|b chunk]; [inversion H; reflexivity|].
    cbn [writeClient] in H. specialize (Hw (cwrites s) (b :: chunk)).
    destruct (werr (wr c (cwrites s) (b :: chunk))) as [[]|];
      try contradiction; apply IH in H; exact H.
Qed.

Lemma sockRead_eof (c : TCPConn) (unread : list byte) :
  ending c = EOF ->
  snd (fst (sockRead c unread)) <> Some OtherError.
Proof.
  intros H. destruct unread; cbn; [rewrite H|]; discriminate.
Qed.

(** With the client's stream ending in [os.EOF] and a remote that takes
    every write, no amount of fuel lets [readClientLoop] return. *)
Lemma readClientLoop_spins (c r : TCPConn) :
  ending c = EOF -> accepts_writes r ->
  forall fuel s, readClientLoop fuel c r s = None.
Proof.
  intros He Hw. induction fuel as [|fuel IH]; intros s; [reflexivity|].
  cbn [readClientLoop]. pose proof (sockRead_eof c (cin s) He) as Hr.
  destruct (sockRead c (cin s)) as [[got err] rest]. cbn [fst snd] in Hr.
  destruct (writeRemote fuel r got _) as [[s2 o]|] eqn:W.
  - apply (writeRemote_goes_on r Hw) in W. subst o.
    destruct err as [[]|]; try contradiction; apply IH.
  - destruct err as [[]|]; try contradiction; reflexivity.
Qed.

Lemma readRemoteLoop_spins (c r : TCPConn) :
  ending r = EOF -> accepts_writes c ->
  forall fuel s, readRemoteLoop fuel c r s = None.
Proof.
  intros He Hw. induction fuel as [|fuel IH]; intros s; [reflexivity|].
  cbn [readRemoteLoop]. pose proof (sockRead_eof r (rin s) He) as Hr.
  destruct (sockRead r (rin s)) as [[got err] rest]. cbn [fst snd] in Hr.
  destruct (writeClient fuel c got _) as [[s2 o]|] eqn:W.
  - apply (writeClient_goes_on c Hw) in W. subst o.
    destruct err as [[]|]; try contradiction; apply IH.
  - destruct err as [[]|]; try contradiction; reflexivity.
Qed.

(** A read error other than [os.EOF] does end the loop: with nothing left
    to read, two units of fuel are enough. *)
Lemma readClientLoop_stops_on_error (c r : TCPConn) (s : State) (fuel : nat) :
  ending c = OtherError -> cin s = [] ->
  readClientLoop (S fuel) c r s
  = Some (emit (Log LogReadClient) (emit (ClientRead []) (set_cin [] s))).
Proof.
  intros He Hc. cbn [readClientLoop]. rewrite Hc. cbn [sockRead].
  rewrite He. reflexivity.
Qed.

Lemma readRemoteLoop_stops_on_error (c r : TCPConn) (s : State) (fuel : nat) :
  ending r = OtherError -> rin s = [] ->
  readRemoteLoop (S fuel) c r s
  = Some (emit (Log LogReadRemote) (emit (RemoteRead []) (set_rin [] s))).
Proof.
  intros He Hc. cbn [readRemoteLoop]. rewrite Hc. cbn [sockRead].
  rewrite He. reflexivity.
Qed.

(** ** Steps only add to the trace *)

Lemma extends_bind {A B} (m : M A) (k : A -> M B) :
  extends m -> (forall a, extends (k a)) -> extends (bind m k).
Proof.
  intros Hm Hk s. unfold bind. destruct (Hm s) as [p Hp].
  destruct (m s) as [s1 [a | |]]; cbn [fst] in *;
    try (exists p; exact Hp).
  destruct (Hk a s1) as [q Hq]. exists (p ++ q).
  rewrite Hq, Hp, app_assoc. reflexivity.
Qed.

Lemma extends_ret {A} (a : A) : extends (ret a).
Proof. intros s. exists []. cbn. rewrite app_nil_r. reflexivity. Qed.

Lemma extends_return {A} : extends (@return_ A).
Proof. intros s. exists []. cbn. rewrite app_nil_r. reflexivity. Qed.

Lemma extends_panic {A} : extends (@panic A).
Proof. intros s. exists []. cbn. rewrite app_nil_r. reflexivity. Qed.

Lemma extends_log (m : logmsg) : extends (log m).
Proof. intros s. exists [Log m]. reflexivity. Qed.

Lemma extends_return_if (c : bool) (m : logmsg) : extends (return_if c m).
Proof.
  destruct c; cbn [return_if].
  - apply extends_bind; [apply extends_log | intros; apply extends_return].
  - apply extends_ret.
Qed.

Lemma extends_check (c : bool) : extends (check c).
Proof. destruct c; [apply extends_ret | apply extends_panic]. Qed.

Lemma extends_readFull (n : nat) (m : logmsg) : extends (readFull n m).
Proof.
  intros s. unfold readFull. destruct (length (cin s) <? n)%nat; cbn.
  - exists [ClientRead (cin s); Log m]. rewrite <- app_assoc. reflexivity.
  - eexists. reflexivity.
Qed.

Lemma extends_clientWrite (e : Env) (bs : list byte) :
  extends (clientWrite e bs).
Proof. intros s. eexists. reflexivity. Qed.

Lemma extends_dialTCP (e : Env) (a : TCPAddr) : extends (dialTCP e a).
Proof.
  intros s. unfold dialTCP. destruct (DialTCP e a); eexists; reflexivity.
Qed.

Create HintDb extends.

#[local] Hint Resolve extends_ret extends_return extends_panic extends_log
  extends_return_if extends_check extends_readFull extends_clientWrite
  extends_dialTCP : extends.

Ltac extends_steps :=
  repeat (first [ apply extends_bind; [|intros] | solve [auto with extends] ]).

Lemma extends_connect (e : Env) a reply : extends (connect e a reply).
Proof.
  unfold connect. extends_steps.
  match goal with |- extends (match ?x with _ => _ end) => destruct x end;
    extends_steps.
Qed.

Lemma extends_sendReply (e : Env) a reply : extends (sendReply e a reply).
Proof. unfold sendReply. extends_steps. Qed.

(** What follows a request that produced [ar]: dial, reply. *)
Lemma extends_establish (e : Env) (ar : TCPAddr * list byte) :
  extends (let (remoteAddress, reply) := ar in
           c <- connect e remoteAddress reply ;;
           sendReply e remoteAddress reply ;;
           ret c).
Proof.
  destruct ar as [a reply]. apply extends_bind; [apply extends_connect|].
  intros c. apply extends_bind; [apply extends_sendReply|].
  intros. apply extends_ret.
Qed.

(** What dialling [target] and replying adds to the trace, for a 4- or
    16-byte target: one dial, one frame. *)
Lemma establish_trace (e : Env) (target : TCPAddr) (s2 : State) :
  ip_sized (IP target) ->
  dialled (trace (fst (after_request e target s2)))
  = dialled (trace s2) ++ [target] /\
  written (trace (fst (after_request e target s2)))
  = written (trace s2) ++
    [match DialTCP e target with
     | Some _ => success_frame target
     | None => failure_frame target
     end].
Proof.
  intros Hsz. unfold after_request.
  destruct (DialTCP e target) as [c0|] eqn:D.
  - erewrite (bind_Next (connect e target _))
      by (apply connect_opened; exact D).
    unfold bind. rewrite (sendReply_frame e target _ Hsz).
    match goal with |- context [is_err ?r] => destruct (is_err r) end;
      cbn [return_if bind log return_ ret fst]; trace_simpl;
      split; reflexivity.
  - erewrite (bind_Return (connect e target _))
      by (apply connect_refused; exact D).
    cbn [fst]. trace_simpl. rewrite failure_frame_eq.
    split; reflexivity.
Qed.

(** Running [m] from [s] is running [m'] from [s'], also under a
    continuation. *)
Lemma bind_cong {A B} (m m' : M A) (k : A -> M B) s s' :
  m s = m' s' -> bind m k s = bind m' k s'.
Proof. unfold bind. intros ->. reflexivity. Qed.

(** * The handler against its specification *)

(** A run that negotiated the greeting and then had its request turned
    away is finished, with the frames the request phase wrote. *)
Lemma clientLoop_turned_away (e : Env) n methods req fuel ws :
  negotiated e n methods req ->
  (exists s, after_greeting e (post_greeting n methods req) = (s, Return) /\
             written (trace s) = ws) ->
  exists s, clientLoop fuel e = Some s /\ written (trace s) = ws /\ closed s.
Proof.
  intros N (s & Hs & Hw).
  apply (clientLoop_early e s fuel ws); [|exact Hw].
  rewrite (negotiate_after e n methods req N). exact Hs.
Qed.

(** C6. For every well-formed greeting (version 5, [n >= 1] methods) that
    offers method 0x00, the first and only thing the greeting phase writes
    is the method selection [0x05 0x00], and once the client socket has
    taken those two bytes the handler goes on to parse the request from the
    bytes that follow the greeting.  For every well-formed greeting that
    does not offer 0x00, the run ends with the connection closed and
    nothing written to the client. *)
Theorem greeting_method_selection (e : Env) n methods rest :
  greets e n methods rest ->
  (In x00 methods ->
     written (trace (fst (greeting e (initial e)))) = [[x05; x00]] /\
     (selection_sent e ->
        negotiate e (initial e)
        = after_greeting e (post_greeting n methods rest) /\
        written (trace (post_greeting n methods rest)) = [[x05; x00]] /\
        cin (post_greeting n methods rest) = rest)) /\
  (~ In x00 methods ->
     forall fuel, exists s,
       clientLoop fuel e = Some s /\ written (trace s) = [] /\ closed s).
Proof.
  intros G. split.
  - intros H0. split.
    + rewrite (greeting_read e n methods rest G).
      apply hasMethod0_In in H0. cbv zeta. rewrite H0.
      unfold bind, return_if, clientWrite. cbn [negb ret].
      destruct (is_err _ || negb _); reflexivity.
    + intros Hs. split; [|split; reflexivity].
      apply negotiate_after. repeat split; try assumption; apply G || apply Hs.
  - intros H0 fuel.
    eapply clientLoop_early.
    + rewrite negotiate_split.
      apply bind_Return. apply greeting_refused; eassumption.
    + reflexivity.
Qed.

Lemma greeting_method_selection_witness :
  greets (env [x05; x02; x02; x00; x05] no_dns no_route) x02 [x02; x00] [x05] /\
  written (trace (fst (greeting (env [x05; x02; x02; x00; x05] no_dns no_route)
                         (initial (env [x05; x02; x02; x00; x05] no_dns no_route)))))
  = [[x05; x00]].
Proof.
  assert (G : greets (env [x05; x02; x02; x00; x05] no_dns no_route)
                     x02 [x02; x00] [x05]).
  { split; [reflexivity | split; [discriminate | reflexivity]]. }
  split; [exact G|].
  exact (proj1 (proj1 (greeting_method_selection _ _ _ _ G)
                      (or_intror (or_introl eq_refl)))).
Defined.

(** C7. For every request header with version 5 that is turned away
    early, the handler writes exactly the four-byte reply
    [0x05 REP 0x00 0x00] and closes the connection: REP = 0x07 when the
    command is not CONNECT (whatever the reserved byte and address type),
    REP = 0x08 when the command is CONNECT, the reserved byte is zero and
    the address type is none of 0x01, 0x03, 0x04. *)
Theorem early_rejection_reply (e : Env) n methods cmd rsv atyp rest fuel :
  negotiated e n methods (x05 :: cmd :: rsv :: atyp :: rest) ->
  (cmd <> x01 ->
     exists s, clientLoop fuel e = Some s /\
               written (trace s) = [[x05; x00]; [x05; x07; x00; x00]] /\
               closed s) /\
  (cmd = x01 -> rsv = x00 -> atyp <> x01 -> atyp <> x03 -> atyp <> x04 ->
     exists s, clientLoop fuel e = Some s /\
               written (trace s) = [[x05; x00]; [x05; x08; x00; x00]] /\
               closed s).
Proof.
  intros N. split.
  - intros Hc. apply (clientLoop_turned_away e n methods _ fuel _ N).
    apply command_rejected. exact Hc.
  - intros -> -> H1 H3 H4.
    apply (clientLoop_turned_away e n methods _ fuel _ N).
    apply address_type_rejected; assumption.
Qed.

Lemma early_rejection_reply_witness :
  negotiated (env [x05; x01; x00; x05; x02; x00; x01] no_dns no_route)
             x01 [x00] [x05; x02; x00; x01] /\
  exists s,
    clientLoop 0 (env [x05; x01; x00; x05; x02; x00; x01] no_dns no_route)
    = Some s /\
    written (trace s) = [[x05; x00]; [x05; x07; x00; x00]] /\ closed s.
Proof.
  assert (N : negotiated (env [x05; x01; x00; x05; x02; x00; x01] no_dns no_route)
                         x01 [x00] [x05; x02; x00; x01]).
  { split; [split; [reflexivity | split; [discriminate | reflexivity]]|].
    split; [left; reflexivity | split; reflexivity]. }
  split; [exact N|].
  apply (proj1 (early_rejection_reply _ _ _ _ _ _ _ 0%nat N)). discriminate.
Defined.

(** C4, as stated, fails: with version 5, command BIND (0x02) and reserved
    byte 0x01 the handler answers [0x05 0x07 0x00 0x00], because the
    command is tested (line 99) before the reserved byte (line 105). *)
Lemma reserved_byte_counterexample :
  negotiated (env [x05; x01; x00; x05; x02; x01; x01] no_dns no_route)
             x01 [x00] [x05; x02; x01; x01] /\
  x01 <> x00 /\
  option_map (fun s => written (trace s))
    (clientLoop 0 (env [x05; x01; x00; x05; x02; x01; x01] no_dns no_route))
  = Some [[x05; x00]; [x05; x07; x00; x00]].
Proof.
  split; [|split; [discriminate | reflexivity]].
  split; [split; [reflexivity | split; [discriminate | reflexivity]]|].
  split; [left; reflexivity | split; reflexivity].
Qed.

(** C4 (amended). For every request whose reserved byte is not 0x00 and
    whose command is CONNECT (or whose version is not 5), the connection
    is closed with no reply written, whatever the address type and the
    bytes that follow. *)
Theorem reserved_byte_rejected (e : Env) n methods v cmd rsv atyp rest fuel :
  negotiated e n methods (v :: cmd :: rsv :: atyp :: rest) ->
  rsv <> x00 ->
  v <> x05 \/ cmd = x01 ->
  exists s, clientLoop fuel e = Some s /\
            written (trace s) = [[x05; x00]] /\ closed s.
Proof.
  intros N Hr Hvc. apply (clientLoop_turned_away e n methods _ fuel _ N).
  destruct (Byte.byte_eq_dec v x05) as [-> | Hv].
  - destruct Hvc as [Hv | ->]; [contradiction|].
    apply reserved_rejected. exact Hr.
  - apply version_rejected. exact Hv.
Qed.

Lemma reserved_byte_rejected_witness :
  negotiated (env [x05; x01; x00; x05; x01; x01; x01] no_dns no_route)
             x01 [x00] [x05; x01; x01; x01] /\
  x01 <> x00 /\
  exists s,
    clientLoop 0 (env [x05; x01; x00; x05; x01; x01; x01] no_dns no_route)
    = Some s /\
    written (trace s) = [[x05; x00]] /\ closed s.
Proof.
  assert (N : negotiated (env [x05; x01; x00; x05; x01; x01; x01] no_dns no_route)
                         x01 [x00] [x05; x01; x01; x01]).
  { split; [split; [reflexivity | split; [discriminate | reflexivity]]|].
    split; [left; reflexivity | split; reflexivity]. }
  split; [exact N|]. split; [discriminate|].
  apply (reserved_byte_rejected _ _ _ _ _ _ _ _ 0%nat N).
  - discriminate.
  - right. reflexivity.
Defined.

(** C9. For every domain-name CONNECT request whose lookup fails or
    returns no address, the connection is closed and the only thing ever
    written to the client is the method selection: no reply to the
    request. *)
Theorem resolution_failure_silent (e : Env) n methods L host rest fuel :
  negotiated e n methods (x05 :: x01 :: x00 :: x03 :: L :: host ++ rest) ->
  length host = b2n L ->
  LookupIP e host = None \/ LookupIP e host = Some [] ->
  exists s, clientLoop fuel e = Some s /\
            written (trace s) = [[x05; x00]] /\ closed s.
Proof.
  intros N Hlen Hl. apply (clientLoop_turned_away e n methods _ fuel _ N).
  pose proof (request_domain e n methods L host rest Hlen) as R.
  destruct Hl as [Hl | Hl]; rewrite Hl in R; eexists;
    (split; [apply after_greeting_Return; exact R | reflexivity]).
Qed.

Lemma resolution_failure_silent_witness :
  negotiated
    (env [x05; x01; x00; x05; x01; x00; x03; x02; x61; x62; x01; xbb]
         no_dns no_route)
    x01 [x00] (x05 :: x01 :: x00 :: x03 :: x02 :: [x61; x62] ++ [x01; xbb]) /\
  length [x61; x62] = b2n x02 /\
  exists s,
    clientLoop 0
      (env [x05; x01; x00; x05; x01; x00; x03; x02; x61; x62; x01; xbb]
           no_dns no_route) = Some s /\
    written (trace s) = [[x05; x00]] /\ closed s.
Proof.
  assert (N : negotiated
    (env [x05; x01; x00; x05; x01; x00; x03; x02; x61; x62; x01; xbb]
         no_dns no_route)
    x01 [x00] (x05 :: x01 :: x00 :: x03 :: x02 :: [x61; x62] ++ [x01; xbb])).
  { split; [split; [reflexivity | split; [discriminate | reflexivity]]|].
    split; [left; reflexivity | split; reflexivity]. }
  split; [exact N|]. split; [reflexivity|].
  apply (resolution_failure_silent _ _ _ _ _ _ 0%nat N eq_refl).
  left. reflexivity.
Defined.

(** C8. For every IPv4 CONNECT request (address type 0x01 followed by the
    six bytes [a b c d hi lo]), the handler dials exactly the IP [a b c d]
    and the port [(hi << 8) + lo].  When the dial succeeds the reply it
    writes is [0x05 0x00 0x00 0x01 a b c d hi lo]: decoding the bytes after
    the four-byte header the way the request was decoded gives the same
    address and port back. *)
Theorem ipv4_request_round_trip (e : Env) n methods a b c d hi lo rest :
  negotiated e n methods
    (x05 :: x01 :: x00 :: x01 :: a :: b :: c :: d :: hi :: lo :: rest) ->
  decode_address 4 [a; b; c; d; hi; lo]
  = {| IP := [a; b; c; d]; Port := Z.shiftl (b2z hi) 8 + b2z lo |} /\
  dialled (trace (fst (negotiate e (initial e))))
  = [{| IP := [a; b; c; d]; Port := Z.shiftl (b2z hi) 8 + b2z lo |}] /\
  forall conn,
    DialTCP e {| IP := [a; b; c; d]; Port := Z.shiftl (b2z hi) 8 + b2z lo |}
    = Some conn ->
    written (trace (fst (negotiate e (initial e))))
    = [[x05; x00]; [x05; x00; x00; x01; a; b; c; d; hi; lo]] /\
    decode_address 4 (skipn 4 [x05; x00; x00; x01; a; b; c; d; hi; lo])
    = {| IP := [a; b; c; d]; Port := Z.shiftl (b2z hi) 8 + b2z lo |}.
Proof.
  intros N. split; [reflexivity|].
  rewrite (negotiate_after e n methods _ N).
  unfold after_greeting.
  rewrite (bind_Next _ _ _ _ _ (request_ipv4 e n methods a b c d hi lo rest)).
  fold (port_of hi lo).
  set (target := {| IP := [a; b; c; d]; Port := port_of hi lo |}).
  change (store 3 x01 reply_init)
    with (store 3 (z2b (Z.of_nat (length (IP target)) / 4)) reply_init).
  assert (Hsz : ip_sized (IP target)) by (left; reflexivity).
  assert (Hf : success_frame target = [x05; x00; x00; x01; a; b; c; d; hi; lo]).
  { unfold success_frame, target. cbn [IP Port length app].
    rewrite port_hi, port_lo. reflexivity. }
  destruct (DialTCP e target) as [c0|] eqn:D.
  - erewrite (bind_Next (connect e target _))
      by (apply connect_opened; exact D).
    unfold bind. rewrite (sendReply_frame e target _ Hsz), Hf.
    match goal with |- context [is_err ?r] => destruct (is_err r) end;
      cbn [return_if bind log return_ ret fst]; trace_simpl;
      (split; [reflexivity | intros conn _; split; reflexivity]).
  - erewrite (bind_Return (connect e target _))
      by (apply connect_refused; exact D).
    cbn [fst]. split; [trace_simpl; reflexivity|].
    intros conn Hc. discriminate.
Qed.

Lemma ipv4_request_round_trip_witness :
  negotiated
    (env [x05; x01; x00; x05; x01; x00; x01; x7f; x00; x00; x01; x1f; x90]
         no_dns (fun _ => Some (sock [] OtherError)))
    x01 [x00] [x05; x01; x00; x01; x7f; x00; x00; x01; x1f; x90] /\
  dialled (trace (fst (negotiate
    (env [x05; x01; x00; x05; x01; x00; x01; x7f; x00; x00; x01; x1f; x90]
         no_dns (fun _ => Some (sock [] OtherError)))
    (initial
      (env [x05; x01; x00; x05; x01; x00; x01; x7f; x00; x00; x01; x1f; x90]
           no_dns (fun _ => Some (sock [] OtherError)))))))
  = [{| IP := [x7f; x00; x00; x01]; Port := 8080 |}].
Proof.
  assert (N : negotiated
    (env [x05; x01; x00; x05; x01; x00; x01; x7f; x00; x00; x01; x1f; x90]
         no_dns (fun _ => Some (sock [] OtherError)))
    x01 [x00] [x05; x01; x00; x01; x7f; x00; x00; x01; x1f; x90]).
  { split; [split; [reflexivity | split; [discriminate | reflexivity]]|].
    split; [left; reflexivity | split; reflexivity]. }
  split; [exact N|].
  exact (proj1 (proj2 (ipv4_request_round_trip _ _ _ _ _ _ _ _ _ _ N))).
Defined.



(** C10. For every domain-name CONNECT request with host length [L], the
    lookup is made right after the length byte and the [L] bytes of the
    host name have been read, before anything else is read: when the
    lookup succeeds the two port bytes are read after it; when it fails
    (or returns no address) the run ends with everything after the host
    name, the port bytes included, still unread: [L + 1] bytes of the
    [L + 1 + 2] were consumed. *)
Theorem lookup_before_port (e : Env) n methods L host rest :
  negotiated e n methods (x05 :: x01 :: x00 :: x03 :: L :: host ++ rest) ->
  length host = b2n L ->
  (exists post,
     trace (fst (negotiate e (initial e)))
     = [ClientRead [x05; n]; ClientRead methods; ClientWrite [x05; x00];
        ClientRead [x05; x01; x00; x03];
        ClientRead [L]; ClientRead host; Lookup host] ++ post) /\
  (forall ip0 ips hi lo rest',
     LookupIP e host = Some (ip0 :: ips) ->
     rest = hi :: lo :: rest' ->
     exists post,
       trace (fst (negotiate e (initial e)))
       = [ClientRead [x05; n]; ClientRead methods; ClientWrite [x05; x00];
          ClientRead [x05; x01; x00; x03];
          ClientRead [L]; ClientRead host; Lookup host;
          ClientRead [hi; lo]] ++ post) /\
  (LookupIP e host = None \/ LookupIP e host = Some [] ->
   forall fuel, exists s m,
     clientLoop fuel e = Some s /\
     trace s
     = [ClientRead [x05; n]; ClientRead methods; ClientWrite [x05; x00];
        ClientRead [x05; x01; x00; x03];
        ClientRead [L]; ClientRead host; Lookup host;
        Log m; CloseClient] /\
     cin s = rest).
Proof.
  intros N Hlen.
  pose proof (request_domain e n methods L host rest Hlen) as R.
  rewrite (negotiate_after e n methods _ N).
  split; [|split].
  - unfold after_greeting.
    destruct (LookupIP e host) as [[|ip0 ips]|].
    + rewrite (bind_Return _ _ _ _ R). eexists. reflexivity.
    + rewrite (bind_cong _ _ _ _ _ R).
      match goal with
      | |- context [bind ?m ?k ?s] =>
          assert (X : extends (bind m k))
            by (extends_steps; apply extends_establish);
          destruct (X s) as [post Hp]; exists post; exact Hp
      end.
    + rewrite (bind_Return _ _ _ _ R). eexists. reflexivity.
  - intros ip0 ips hi lo rest' Hl ->. rewrite Hl in R.
    unfold after_greeting. rewrite (bind_Next _ _ _ _ _ R).
    destruct (extends_establish e
                ({| IP := ip0; Port := port_of hi lo |},
                 store 3 (z2b (Z.of_nat (length ip0) / 4)) reply_init)
                (emit (Log (LogRequestedAddress
                              {| IP := ip0; Port := port_of hi lo |}))
                   (emit (ClientRead [hi; lo])
                      (set_cin rest'
                         (post_lookup n methods L host (hi :: lo :: rest'))))))
      as [post Hp].
    eexists. etransitivity; [exact Hp | reflexivity].
  - intros Hl fuel.
    destruct Hl as [Hl | Hl]; rewrite Hl in R;
      eexists; eexists;
      (split;
       [apply clientLoop_returns; rewrite (negotiate_after e n methods _ N);
        apply after_greeting_Return; exact R
       | split; reflexivity]).
Qed.

Lemma lookup_before_port_witness :
  negotiated
    (env [x05; x01; x00; x05; x01; x00; x03; x02; x61; x62; x01; xbb]
         no_dns no_route)
    x01 [x00] (x05 :: x01 :: x00 :: x03 :: x02 :: [x61; x62] ++ [x01; xbb]) /\
  length [x61; x62] = b2n x02 /\
  exists s m,
    clientLoop 0
      (env [x05; x01; x00; x05; x01; x00; x03; x02; x61; x62; x01; xbb]
           no_dns no_route) = Some s /\
    trace s
    = [ClientRead [x05; x01]; ClientRead [x00]; ClientWrite [x05; x00];
       ClientRead [x05; x01; x00; x03];
       ClientRead [x02]; ClientRead [x61; x62]; Lookup [x61; x62];
       Log m; CloseClient] /\
    cin s = [x01; xbb].
Proof.
  assert (N : negotiated
    (env [x05; x01; x00; x05; x01; x00; x03; x02; x61; x62; x01; xbb]
         no_dns no_route)
    x01 [x00] (x05 :: x01 :: x00 :: x03 :: x02 :: [x61; x62] ++ [x01; xbb])).
  { split; [split; [reflexivity | split; [discriminate | reflexivity]]|].
    split; [left; reflexivity | split; reflexivity]. }
  split; [exact N|]. split; [reflexivity|].
  exact (proj2 (proj2 (lookup_before_port _ _ _ _ _ _ N eq_refl))
               (or_introl eq_refl) 0%nat).
Defined.

(** C1, as stated, fails: a CONNECT to 1.2.3.4:443 that is reached through
    an outbound socket whose local address is 10.0.0.2:40000 is answered
    with 1.2.3.4:443 in the bound-address fields, not with 10.0.0.2:40000. *)
Lemma reply_bound_address_counterexample :
  snd (negotiate
         (env [x05; x01; x00; x05; x01; x00; x01; x01; x02; x03; x04; x01; xbb]
              no_dns (fun _ => Some (sock [] OtherError)))
         (initial
            (env [x05; x01; x00; x05; x01; x00; x01; x01; x02; x03; x04; x01; xbb]
                 no_dns (fun _ => Some (sock [] OtherError)))))
  = Next (sock [] OtherError) /\
  LocalAddr (sock [] OtherError)
  = {| IP := [x0a; x00; x00; x02]; Port := 40000 |} /\
  written (trace (fst (negotiate
         (env [x05; x01; x00; x05; x01; x00; x01; x01; x02; x03; x04; x01; xbb]
              no_dns (fun _ => Some (sock [] OtherError)))
         (initial
            (env [x05; x01; x00; x05; x01; x00; x01; x01; x02; x03; x04; x01; xbb]
                 no_dns (fun _ => Some (sock [] OtherError)))))))
  = [[x05; x00]; [x05; x00; x00; x01; x01; x02; x03; x04; x01; xbb]] /\
  [x05; x00; x00; x01; x01; x02; x03; x04; x01; xbb]
  <> success_frame (LocalAddr (sock [] OtherError)).
Proof.
  split; [reflexivity|]. split; [reflexivity|]. split; [reflexivity|].
  discriminate.
Qed.

(** C1 (amended). On a successful CONNECT (the negotiation reaches the
    relay with the outbound socket [c]), exactly one address [a] was
    dialled, [c] is the socket that dial returned, and the last thing
    written to the client is the reply with code 0x00 whose bound-address
    and bound-port fields are the IP and the port of [a], the requested
    destination (address type: its length over four), whatever the local
    address of [c].  The resolver is taken to return 4- or 16-byte
    addresses only. *)
Theorem reply_carries_destination (e : Env) (s : State) (c : TCPConn) :
  sane_dns e ->
  negotiate e (initial e) = (s, Next c) ->
  exists pre a,
    DialTCP e a = Some c /\
    dialled pre = [] /\
    trace s
    = pre ++
      [Dial a;
       ClientWrite
         ([x05; x00; x00; z2b (Z.of_nat (length (IP a)) / 4)] ++ IP a ++
          [z2b (Z.shiftr (Port a) 8); z2b (Z.rem (Port a) 256)])].
Proof.
  intros Hs H.
  destruct (negotiate_established e s c Hs H) as (pre & a & D & Ht & Hp).
  exists pre, a. split; [exact D|]. split; [exact Hp | exact Ht].
Qed.

Lemma reply_carries_destination_witness :
  sane_dns
    (env [x05; x01; x00; x05; x01; x00; x01; x01; x02; x03; x04; x01; xbb]
         no_dns (fun _ => Some (sock [] OtherError))) /\
  exists pre a,
    DialTCP
      (env [x05; x01; x00; x05; x01; x00; x01; x01; x02; x03; x04; x01; xbb]
           no_dns (fun _ => Some (sock [] OtherError))) a
    = Some (sock [] OtherError) /\
    dialled pre = [] /\
    trace (fst (negotiate
      (env [x05; x01; x00; x05; x01; x00; x01; x01; x02; x03; x04; x01; xbb]
           no_dns (fun _ => Some (sock [] OtherError)))
      (initial
         (env [x05; x01; x00; x05; x01; x00; x01; x01; x02; x03; x04; x01; xbb]
              no_dns (fun _ => Some (sock [] OtherError))))))
    = pre ++
      [Dial a;
       ClientWrite
         ([x05; x00; x00; z2b (Z.of_nat (length (IP a)) / 4)] ++ IP a ++
          [z2b (Z.shiftr (Port a) 8); z2b (Z.rem (Port a) 256)])].
Proof.
  assert (Hs : sane_dns
    (env [x05; x01; x00; x05; x01; x00; x01; x01; x02; x03; x04; x01; xbb]
         no_dns (fun _ => Some (sock [] OtherError)))).
  { intros host ips ip H. discriminate H. }
  split; [exact Hs|].
  exact (reply_carries_destination _ _ _ Hs eq_refl).
Defined.

(** C2, as stated, fails: a CONNECT to 1.2.3.4:443 whose dial fails is
    answered with the six bytes [0x05 0x05 0x00 0x01 0x00 0x00] (line 170
    writes [reply[:6]], and [reply[3]] already holds the address type), not
    with eight bytes ending in five zeros. *)
Lemma dial_failure_counterexample :
  dialled (trace (fst (negotiate
    (env [x05; x01; x00; x05; x01; x00; x01; x01; x02; x03; x04; x01; xbb]
         no_dns no_route)
    (initial
       (env [x05; x01; x00; x05; x01; x00; x01; x01; x02; x03; x04; x01; xbb]
            no_dns no_route)))))
  = [{| IP := [x01; x02; x03; x04]; Port := 443 |}] /\
  no_route {| IP := [x01; x02; x03; x04]; Port := 443 |} = None /\
  option_map (fun s => written (trace s))
    (clientLoop 0
       (env [x05; x01; x00; x05; x01; x00; x01; x01; x02; x03; x04; x01; xbb]
            no_dns no_route))
  = Some [[x05; x00]; [x05; x05; x00; x01; x00; x00]] /\
  [x05; x05; x00; x01; x00; x00]
  <> [x05; x05; x00; x00; x00; x00; x00; x00].
Proof.
  split; [reflexivity|]. split; [reflexivity|]. split; [reflexivity|].
  discriminate.
Qed.

(** C2 (amended). For every run in which an address [a] is dialled and the
    dial fails, the handler writes, after the method selection, exactly the
    six-byte frame [0x05 0x05 0x00 ATYP 0x00 0x00], where ATYP is the
    address-type byte of the reply (the length of the target IP over four:
    0x01 for a 4-byte, 0x04 for a 16-byte address), and then closes the
    connection. *)
Theorem dial_failure_reply (e : Env) (a : TCPAddr) (fuel : nat) :
  In a (dialled (trace (fst (negotiate e (initial e))))) ->
  DialTCP e a = None ->
  exists s,
    clientLoop fuel e = Some s /\
    written (trace s)
    = [[x05; x00];
       [x05; x05; x00; z2b (Z.of_nat (length (IP a)) / 4); x00; x00]] /\
    closed s.
Proof.
  intros Hin Hd.
  destruct (negotiate_dial_failed e a Hin Hd) as (s & Hn & Hw).
  exact (clientLoop_early e s fuel _ Hn Hw).
Qed.

Lemma dial_failure_reply_witness :
  In {| IP := [x01; x02; x03; x04]; Port := 443 |}
     (dialled (trace (fst (negotiate
        (env [x05; x01; x00; x05; x01; x00; x01; x01; x02; x03; x04; x01; xbb]
             no_dns no_route)
        (initial
           (env [x05; x01; x00; x05; x01; x00; x01; x01; x02; x03; x04; x01; xbb]
                no_dns no_route)))))) /\
  exists s,
    clientLoop 0
      (env [x05; x01; x00; x05; x01; x00; x01; x01; x02; x03; x04; x01; xbb]
           no_dns no_route) = Some s /\
    written (trace s) = [[x05; x00]; [x05; x05; x00; x01; x00; x00]] /\
    closed s.
Proof.
  split; [left; reflexivity|].
  exact (dial_failure_reply
           (env [x05; x01; x00; x05; x01; x00; x01; x01; x02; x03; x04; x01; xbb]
                no_dns no_route)
           {| IP := [x01; x02; x03; x04]; Port := 443 |} 0%nat
           (or_introl eq_refl) eq_refl).
Defined.

(** C3 (the code at the failing input). With both peers at end of stream
    neither copy loop ever returns, whatever the fuel, and so neither does
    [clientLoop]: a [Read] that returns [os.EOF] passes the test of lines
    202 and 228 ([err != nil && err != os.EOF]) and the loop reads again. *)
Theorem relay_hangs_at_end_of_stream :
  forall (fuel : nat) (s : State),
    readClientLoop fuel (sock [] EOF) (sock [x41] EOF) s = None /\
    readRemoteLoop fuel (sock [] EOF) (sock [x41] EOF) s = None /\
    clientLoop fuel eof_env = None.
Proof.
  assert (Hw : forall bs, accepts_writes (sock bs EOF))
    by (intros bs k l; discriminate).
  intros fuel s. split; [|split].
  - apply readClientLoop_spins; [reflexivity | apply Hw].
  - apply readRemoteLoop_spins; [reflexivity | apply Hw].
  - unfold clientLoop.
    assert (H : snd (negotiate eof_env (initial eof_env))
                = Next (sock [x41] EOF)) by reflexivity.
    destruct (negotiate eof_env (initial eof_env)) as [s1 o].
    cbn [snd] in H. subst o. unfold relay.
    rewrite readClientLoop_spins; [reflexivity | reflexivity | apply Hw].
Qed.

(** * Beyond the specification: the rest of [clientLoop] *)

Lemma dialled_deferred (s : State) :
  dialled (trace (deferred s)) = dialled (trace s).
Proof.
  unfold deferred. destruct (remote s); simpl;
    rewrite ?dialled_app; simpl; rewrite ?app_nil_r; reflexivity.
Qed.

Lemma looked_up_app (t u : list event) :
  looked_up (t ++ u) = looked_up t ++ looked_up u.
Proof.
  induction t as [|ev t IH]; simpl; [reflexivity|].
  destruct ev; simpl; rewrite IH; reflexivity.
Qed.

Lemma looked_up_deferred (s : State) :
  looked_up (trace (deferred s)) = looked_up (trace s).
Proof.
  unfold deferred. destruct (remote s); simpl;
    rewrite ?looked_up_app; simpl; rewrite ?app_nil_r; reflexivity.
Qed.

Lemma cin_deferred (s : State) : cin (deferred s) = cin s.
Proof. unfold deferred. destruct (remote s); reflexivity. Qed.

(** What a run that returned during the negotiation leaves behind. *)
Lemma clientLoop_returned (e : Env) (s : State) (fuel : nat) :
  negotiate e (initial e) = (s, Return) ->
  exists s',
    clientLoop fuel e = Some s' /\ closed s' /\
    written (trace s') = written (trace s) /\
    dialled (trace s') = dialled (trace s) /\
    looked_up (trace s') = looked_up (trace s) /\
    cin s' = cin s.
Proof.
  intros H. exists (deferred s).
  split; [apply clientLoop_returns; exact H|].
  split; [apply closed_deferred|].
  split; [apply written_deferred|].
  split; [apply dialled_deferred|].
  split; [apply looked_up_deferred | apply cin_deferred].
Qed.

(** X1. A greeting whose version byte is not 5, or whose method count is
    zero, is dropped after its first two bytes: nothing is written, the
    connection is closed, and whatever followed those two bytes (the
    methods, if any) is never read. *)
Theorem greeting_rejected (e : Env) v n rest fuel :
  incoming (client e) = v :: n :: rest ->
  v <> x05 \/ n = x00 ->
  exists s,
    clientLoop fuel e = Some s /\ closed s /\
    written (trace s) = [] /\ cin s = rest.
Proof.
  intros Hin Hbad.
  assert (R : readFull 2 LogReadVersionMethods (initial e)
              = (emit (ClientRead [v; n]) (set_cin rest (initial e)),
                 Next [v; n]))
    by (apply (readFull_app [v; n] rest); exact Hin).
  assert (exists s, negotiate e (initial e) = (s, Return) /\
                    written (trace s) = [] /\ cin s = rest)
    as (s & Hn & Hw & Hc).
  { rewrite negotiate_split. unfold greeting.
    destruct (Byte.byte_eq_dec v x05) as [-> | Hv].
    - destruct Hbad as [Hv | ->]; [contradiction|].
      eexists. split; [|split].
      + apply bind_Return. rewrite (bind_Next _ _ _ _ _ R).
        cbn [at_ nth]. reflexivity.
      + reflexivity.
      + reflexivity.
    - eexists. split; [|split].
      + apply bind_Return. rewrite (bind_Next _ _ _ _ _ R).
        cbn [at_ nth]. rewrite (eqb_neq _ _ Hv). reflexivity.
      + reflexivity.
      + reflexivity. }
  destruct (clientLoop_returned e s fuel Hn) as (s' & H1 & H2 & H3 & _ & _ & H6).
  exists s'. rewrite H3, H6. auto.
Qed.

Lemma greeting_rejected_witness :
  incoming (client (env [x04; x01; x00; x07] no_dns no_route))
  = [x04; x01; x00; x07] /\
  exists s,
    clientLoop 0 (env [x04; x01; x00; x07] no_dns no_route) = Some s /\
    closed s /\ written (trace s) = [] /\ cin s = [x00; x07].
Proof.
  split; [reflexivity|].
  apply (greeting_rejected (env [x04; x01; x00; x07] no_dns no_route)
           x04 x01 [x00; x07] 0%nat eq_refl).
  left. discriminate.
Defined.

(** X2. A greeting that stops short (fewer than two bytes, or fewer method
    bytes than announced) ends the connection with nothing written. *)
Theorem greeting_truncated (e : Env) fuel :
  (length (incoming (client e)) < 2)%nat \/
  (exists n ms, incoming (client e) = x05 :: n :: ms /\ n <> x00 /\
                (length ms < b2n n)%nat) ->
  exists s,
    clientLoop fuel e = Some s /\ closed s /\
    written (trace s) = [] /\ cin s = [].
Proof.
  intros H.
  assert (exists s, negotiate e (initial e) = (s, Return) /\
                    written (trace s) = [] /\ cin s = [])
    as (s & Hn & Hw & Hc).
  { rewrite negotiate_split. unfold greeting.
    destruct H as [H | (n & ms & Hin & Hn & Hlen)].
    - eexists. split; [|split].
      + apply bind_Return. apply bind_Return.
        apply readFull_short. exact H.
      + reflexivity.
      + reflexivity.
    - eexists. split; [|split].
      + apply bind_Return.
        rewrite (bind_Next _ _ _ _ _
                   (readFull_app [x05; n] ms LogReadVersionMethods
                      (initial e) Hin)).
        cbn [at_ nth]. rewrite eqb_refl, (eqb_neq _ _ Hn).
        cbn [negb return_if].
        rewrite (bind_Next _ _ _ _ tt eq_refl).
        rewrite (bind_Next _ _ _ _ tt eq_refl).
        apply bind_Return. apply readFull_short. exact Hlen.
      + reflexivity.
      + reflexivity. }
  destruct (clientLoop_returned e s fuel Hn) as (s' & H1 & H2 & H3 & _ & _ & H6).
  exists s'. rewrite H3, H6. auto.
Qed.

Lemma greeting_truncated_witness :
  (exists n ms,
     incoming (client (env [x05; x03; x00] no_dns no_route)) = x05 :: n :: ms /\
     n <> x00 /\ (length ms < b2n n)%nat) /\
  exists s,
    clientLoop 0 (env [x05; x03; x00] no_dns no_route) = Some s /\
    closed s /\ written (trace s) = [] /\ cin s = [].
Proof.
  assert (H : exists n ms,
     incoming (client (env [x05; x03; x00] no_dns no_route)) = x05 :: n :: ms /\
     n <> x00 /\ (length ms < b2n n)%nat).
  { exists x03, [x00]. split; [reflexivity|].
    split; [discriminate | apply Nat.ltb_lt; reflexivity]. }
  split; [exact H|].
  exact (greeting_truncated (env [x05; x03; x00] no_dns no_route) 0%nat
           (or_intror H)).
Defined.

(** X3. When the client socket does not take the two bytes of the method
    selection (the write reports an error or a short count), the
    connection is closed right there: the selection is the only write and
    the request that follows the greeting is never read. *)
Theorem selection_write_failed (e : Env) n methods rest fuel :
  greets e n methods rest ->
  In x00 methods ->
  werr (wr (client e) 0%nat [x05; x00]) <> None \/
  nw (wr (client e) 0%nat [x05; x00]) <> 2%nat ->
  exists s,
    clientLoop fuel e = Some s /\ closed s /\
    written (trace s) = [[x05; x00]] /\ cin s = rest.
Proof.
  intros G H0 Hbad.
  assert (exists s, negotiate e (initial e) = (s, Return) /\
                    written (trace s) = [[x05; x00]] /\ cin s = rest)
    as (s & Hn & Hw & Hc).
  { rewrite negotiate_split.
    assert (C : is_err (wr (client e) 0%nat [x05; x00])
                || negb (nw (wr (client e) 0%nat [x05; x00]) =? 2)%nat = true).
    { unfold is_err. destruct Hbad as [Hb | Hb].
      - destruct (werr (wr (client e) 0%nat [x05; x00]));
          [reflexivity | contradiction].
      - apply Nat.eqb_neq in Hb. rewrite Hb. apply orb_true_r. }
    eexists. split; [|split].
    - apply bind_Return. rewrite (greeting_read e n methods rest G).
      apply hasMethod0_In in H0. cbv zeta. rewrite H0.
      unfold bind, return_if, clientWrite. cbn [negb ret cwrites].
      rewrite C. reflexivity.
    - reflexivity.
    - reflexivity. }
  destruct (clientLoop_returned e s fuel Hn) as (s' & H1 & H2 & H3 & _ & _ & H6).
  exists s'. rewrite H3, H6. auto.
Qed.

Lemma selection_write_failed_witness :
  greets {| client := {| incoming := [x05; x01; x00; x05; x01];
                         ending := EOF;
                         wr := fun _ _ => {| nw := 0; werr := Some OtherError |};
                         LocalAddr := {| IP := []; Port := 0 |} |};
            LookupIP := no_dns; DialTCP := no_route |}
         x01 [x00] [x05; x01] /\
  exists s,
    clientLoop 0
      {| client := {| incoming := [x05; x01; x00; x05; x01];
                      ending := EOF;
                      wr := fun _ _ => {| nw := 0; werr := Some OtherError |};
                      LocalAddr := {| IP := []; Port := 0 |} |};
         LookupIP := no_dns; DialTCP := no_route |} = Some s /\
    closed s /\ written (trace s) = [[x05; x00]] /\ cin s = [x05; x01].
Proof.
  assert (G : greets
    {| client := {| incoming := [x05; x01; x00; x05; x01];
                    ending := EOF;
                    wr := fun _ _ => {| nw := 0; werr := Some OtherError |};
                    LocalAddr := {| IP := []; Port := 0 |} |};
       LookupIP := no_dns; DialTCP := no_route |}
    x01 [x00] [x05; x01]).
  { split; [reflexivity | split; [discriminate | reflexivity]]. }
  split; [exact G|].
  apply (selection_write_failed _ _ _ _ 0%nat G (or_introl eq_refl)).
  left. discriminate.
Defined.

(** X4. A request whose version byte is not 5 gets no reply at all,
    whatever its command, reserved byte and address type: the version is
    tested first (line 95), so not even the command-not-supported reply
    is sent.  Nothing after the four header bytes is read. *)
Theorem request_version_mismatch (e : Env) n methods v cmd rsv atyp rest fuel :
  negotiated e n methods (v :: cmd :: rsv :: atyp :: rest) ->
  v <> x05 ->
  exists s,
    clientLoop fuel e = Some s /\ closed s /\
    written (trace s) = [[x05; x00]] /\ cin s = rest.
Proof.
  intros N Hv.
  assert (exists s, negotiate e (initial e) = (s, Return) /\
                    written (trace s) = [[x05; x00]] /\ cin s = rest)
    as (s & Hn & Hw & Hc).
  { rewrite (negotiate_after e n methods _ N).
    eexists. split; [|split].
    - apply after_greeting_Return. rewrite request_header.
      unfold dispatch. cbn [at_ nth]. rewrite (eqb_neq _ _ Hv). reflexivity.
    - reflexivity.
    - reflexivity. }
  destruct (clientLoop_returned e s fuel Hn) as (s' & H1 & H2 & H3 & _ & _ & H6).
  exists s'. rewrite H3, H6. auto.
Qed.

Lemma request_version_mismatch_witness :
  negotiated (env [x05; x01; x00; x04; x02; x00; x01; x09] no_dns no_route)
             x01 [x00] [x04; x02; x00; x01; x09] /\
  exists s,
    clientLoop 0 (env [x05; x01; x00; x04; x02; x00; x01; x09] no_dns no_route)
    = Some s /\
    closed s /\ written (trace s) = [[x05; x00]] /\ cin s = [x09].
Proof.
  assert (N : negotiated
    (env [x05; x01; x00; x04; x02; x00; x01; x09] no_dns no_route)
    x01 [x00] [x04; x02; x00; x01; x09]).
  { split; [split; [reflexivity | split; [discriminate | reflexivity]]|].
    split; [left; reflexivity | split; reflexivity]. }
  split; [exact N|].
  apply (request_version_mismatch _ _ _ _ _ _ _ _ 0%nat N). discriminate.
Defined.

(** A run that was turned away during the request, with what it wrote,
    dialled and looked up. *)
Lemma clientLoop_request_returned (e : Env) n methods req fuel ws ds ls :
  negotiated e n methods req ->
  (exists s, request e (post_greeting n methods req) = (s, Return) /\
             written (trace s) = ws /\ dialled (trace s) = ds /\
             looked_up (trace s) = ls) ->
  exists s,
    clientLoop fuel e = Some s /\ closed s /\
    written (trace s) = ws /\ dialled (trace s) = ds /\
    looked_up (trace s) = ls.
Proof.
  intros N (s & Hr & Hw & Hd & Hl).
  assert (Hn : negotiate e (initial e) = (s, Return)).
  { rewrite (negotiate_after e n methods req N).
    apply after_greeting_Return. exact Hr. }
  destruct (clientLoop_returned e s fuel Hn)
    as (s' & H1 & H2 & H3 & H4 & H5 & _).
  exists s'. rewrite H3, H4, H5. auto.
Qed.

(** X5. A request that stops short gets no reply and no dial, wherever it
    stops: in the four-byte header, in the address and port of an IPv4 or
    IPv6 request, in the length byte or the name of a domain request (no
    lookup is made then), or in the port of a domain request (the lookup
    has been made by then). *)
Theorem request_truncated (e : Env) n methods req fuel :
  negotiated e n methods req ->
  ((length req < 4)%nat ->
   exists s, clientLoop fuel e = Some s /\ closed s /\
             written (trace s) = [[x05; x00]] /\ dialled (trace s) = [] /\
             looked_up (trace s) = []) /\
  (forall atyp tail,
     req = x05 :: x01 :: x00 :: atyp :: tail ->
     atyp = x01 \/ atyp = x04 ->
     (length tail < 4 * b2n atyp + 2)%nat ->
     exists s, clientLoop fuel e = Some s /\ closed s /\
               written (trace s) = [[x05; x00]] /\ dialled (trace s) = [] /\
               looked_up (trace s) = []) /\
  (forall tail,
     req = x05 :: x01 :: x00 :: x03 :: tail ->
     tail = [] \/ (exists L t, tail = L :: t /\ (length t < b2n L)%nat) ->
     exists s, clientLoop fuel e = Some s /\ closed s /\
               written (trace s) = [[x05; x00]] /\ dialled (trace s) = [] /\
               looked_up (trace s) = []) /\
  (forall L host tail ip0 ips,
     req = x05 :: x01 :: x00 :: x03 :: L :: host ++ tail ->
     length host = b2n L ->
     LookupIP e host = Some (ip0 :: ips) ->
     (length tail < 2)%nat ->
     exists s, clientLoop fuel e = Some s /\ closed s /\
               written (trace s) = [[x05; x00]] /\ dialled (trace s) = [] /\
               looked_up (trace s) = [host]).
Proof.
  intros N. split; [|split; [|split]].
  - intros Hlen. apply (clientLoop_request_returned e n methods req fuel _ _ _ N).
    eexists. split; [|split; [|split]].
    + unfold request. apply bind_Return. apply readFull_short. exact Hlen.
    + reflexivity.
    + reflexivity.
    + reflexivity.
  - intros atyp tail -> Ht Hlen.
    apply (clientLoop_request_returned e n methods _ fuel _ _ _ N).
    destruct Ht as [-> | ->];
      (eexists; split;
       [ rewrite request_header; unfold dispatch; cbn [at_ nth];
         rewrite !eqb_refl; cbn [negb return_if];
         rewrite (bind_Next _ _ _ _ tt eq_refl);
         rewrite (bind_Next _ _ _ _ tt eq_refl);
         rewrite (bind_Next _ _ _ _ tt eq_refl);
         apply bind_Return; apply bind_Return;
         apply readFull_short; exact Hlen
       | repeat split; reflexivity ]).
  - intros tail -> Ht.
    apply (clientLoop_request_returned e n methods _ fuel _ _ _ N).
    destruct Ht as [-> | (L & t & -> & Hlen)].
    + eexists. split.
      { rewrite request_header. unfold dispatch. cbn [at_ nth].
        rewrite !eqb_refl. cbn [negb return_if].
        rewrite (bind_Next _ _ _ _ tt eq_refl).
        rewrite (bind_Next _ _ _ _ tt eq_refl).
        rewrite (bind_Next _ _ _ _ tt eq_refl).
        apply bind_Return.
        change (Byte.eqb x03 x01) with false.
        change (Byte.eqb x03 x04) with false. cbn [orb].
        apply bind_Return. apply readFull_short. cbn. lia. }
      repeat split; reflexivity.
    + eexists. split.
      { rewrite request_header. unfold dispatch. cbn [at_ nth].
        rewrite !eqb_refl. cbn [negb return_if].
        rewrite (bind_Next _ _ _ _ tt eq_refl).
        rewrite (bind_Next _ _ _ _ tt eq_refl).
        rewrite (bind_Next _ _ _ _ tt eq_refl).
        apply bind_Return.
        change (Byte.eqb x03 x01) with false.
        change (Byte.eqb x03 x04) with false. cbn [orb].
        erewrite (bind_Next (readFull 1 LogReadHostLen))
          by (apply (readFull_app [L] t); reflexivity).
        apply bind_Return. apply readFull_short. exact Hlen. }
      repeat split; reflexivity.
  - intros L host tail ip0 ips -> Hlen Hl Ht.
    apply (clientLoop_request_returned e n methods _ fuel _ _ _ N).
    pose proof (request_domain e n methods L host tail Hlen) as R.
    rewrite Hl in R.
    eexists. split.
    { rewrite R. apply bind_Return. apply readFull_short. exact Ht. }
    repeat split; reflexivity.
Qed.

Lemma request_truncated_witness :
  negotiated (env [x05; x01; x00; x05; x01; x00; x01; x7f; x00] no_dns no_route)
             x01 [x00] [x05; x01; x00; x01; x7f; x00] /\
  exists s,
    clientLoop 0 (env [x05; x01; x00; x05; x01; x00; x01; x7f; x00]
                      no_dns no_route) = Some s /\
    closed s /\ written (trace s) = [[x05; x00]] /\ dialled (trace s) = [] /\
    looked_up (trace s) = [].
Proof.
  assert (N : negotiated
    (env [x05; x01; x00; x05; x01; x00; x01; x7f; x00] no_dns no_route)
    x01 [x00] [x05; x01; x00; x01; x7f; x00]).
  { split; [split; [reflexivity | split; [discriminate | reflexivity]]|].
    split; [left; reflexivity | split; reflexivity]. }
  split; [exact N|].
  apply (proj1 (proj2 (request_truncated _ _ _ _ 0%nat N))
           x01 [x7f; x00] eq_refl (or_introl eq_refl)).
  apply Nat.ltb_lt. reflexivity.
Defined.

(** X6. For every IPv6 CONNECT request (address type 0x04, sixteen address
    bytes, two port bytes) the handler dials exactly that address and
    port; when the dial succeeds the reply is [0x05 0x00 0x00 0x04]
    followed by the same eighteen bytes, and when it fails the reply is
    [0x05 0x05 0x00 0x04 0x00 0x00]. *)
Theorem ipv6_request_round_trip (e : Env) n methods ip hi lo rest :
  negotiated e n methods
    (x05 :: x01 :: x00 :: x04 :: ip ++ hi :: lo :: rest) ->
  length ip = 16%nat ->
  dialled (trace (fst (negotiate e (initial e))))
  = [{| IP := ip; Port := Z.shiftl (b2z hi) 8 + b2z lo |}] /\
  (forall conn,
     DialTCP e {| IP := ip; Port := Z.shiftl (b2z hi) 8 + b2z lo |} = Some conn ->
     written (trace (fst (negotiate e (initial e))))
     = [[x05; x00]; [x05; x00; x00; x04] ++ ip ++ [hi; lo]]) /\
  (DialTCP e {| IP := ip; Port := Z.shiftl (b2z hi) 8 + b2z lo |} = None ->
   written (trace (fst (negotiate e (initial e))))
   = [[x05; x00]; [x05; x05; x00; x04; x00; x00]]).
Proof.
  intros N Hlen. fold (port_of hi lo).
  set (target := {| IP := ip; Port := port_of hi lo |}).
  assert (R : exists s2,
             request e (post_greeting n methods
                          (x05 :: x01 :: x00 :: x04 :: ip ++ hi :: lo :: rest))
             = (s2, Next (target,
                          store 3 (z2b (Z.of_nat (length (IP target)) / 4))
                                reply_init)) /\
             written (trace s2) = [[x05; x00]] /\ dialled (trace s2) = []).
  { subst target. cbn [IP]. rewrite Hlen.
    exists (emit (Log (LogRequestedAddress
                         {| IP := ip; Port := port_of hi lo |}))
              (emit (ClientRead (ip ++ [hi; lo]))
                 (set_cin rest
                    (post_header n methods [x05; x01; x00; x04]
                       (ip ++ hi :: lo :: rest))))).
    explode ip.
    split; [rewrite request_header; reflexivity|].
    split; reflexivity. }
  destruct R as (s2 & R & Hw & Hd).
  rewrite (negotiate_after e n methods _ N). unfold after_greeting.
  rewrite (bind_Next _ _ _ _ _ R).
  assert (Hsz : ip_sized (IP target)) by (right; exact Hlen).
  match goal with
  | |- context [trace (fst (?m s2))] =>
      change (m s2) with (after_request e target s2)
  end.
  destruct (establish_trace e target s2 Hsz) as [Ed Ew].
  rewrite Ed, Ew, Hw, Hd.
  split; [reflexivity|]. split.
  - intros conn ->. unfold success_frame. cbn [IP Port target app].
    rewrite Hlen, port_hi, port_lo. reflexivity.
  - intros ->. unfold failure_frame. cbn [IP target]. rewrite Hlen.
    reflexivity.
Qed.

Lemma ipv6_request_round_trip_witness :
  negotiated
    (env ([x05; x01; x00; x05; x01; x00; x04] ++ repeat x00 15 ++ [x01; x00; x50])
         no_dns no_route)
    x01 [x00]
    (x05 :: x01 :: x00 :: x04 :: (repeat x00 15 ++ [x01]) ++ x00 :: x50 :: []) /\
  dialled (trace (fst (negotiate
    (env ([x05; x01; x00; x05; x01; x00; x04] ++ repeat x00 15 ++ [x01; x00; x50])
         no_dns no_route)
    (initial
       (env ([x05; x01; x00; x05; x01; x00; x04] ++ repeat x00 15
             ++ [x01; x00; x50]) no_dns no_route)))))
  = [{| IP := repeat x00 15 ++ [x01]; Port := Z.shiftl (b2z x00) 8 + b2z x50 |}].
Proof.
  assert (N : negotiated
    (env ([x05; x01; x00; x05; x01; x00; x04] ++ repeat x00 15 ++ [x01; x00; x50])
         no_dns no_route)
    x01 [x00]
    (x05 :: x01 :: x00 :: x04 :: (repeat x00 15 ++ [x01]) ++ x00 :: x50 :: [])).
  { split; [split; [reflexivity | split; [discriminate | reflexivity]]|].
    split; [left; reflexivity | split; reflexivity]. }
  split; [exact N|].
  exact (proj1 (ipv6_request_round_trip _ _ _ _ _ _ _ N eq_refl)).
Defined.

(** X7. The two port bytes of a reply (lines 178-179) decode, the way a
    request's port is decoded (line 122), to the port they were made from,
    for every port from 0 to 65535. *)
Theorem port_bytes_round_trip (p : Z) :
  0 <= p < 65536 ->
  port_of (z2b (Z.shiftr p 8)) (z2b (Z.rem p 256)) = p.
Proof.
  intros Hp. unfold port_of. rewrite !b2z_z2b.
  rewrite Z.shiftl_mul_pow2, Z.shiftr_div_pow2 by lia.
  rewrite Z.rem_mod_nonneg by lia. change (2 ^ 8) with 256.
  rewrite (Z.mod_small (p / 256)).
  - rewrite Z.mod_mod by lia. pose proof (Z.div_mod p 256 ltac:(lia)). lia.
  - split; [apply Z.div_pos; lia | apply Z.div_lt_upper_bound; lia].
Qed.

Lemma port_bytes_round_trip_witness :
  0 <= 8080 < 65536 /\
  port_of (z2b (Z.shiftr 8080 8)) (z2b (Z.rem 8080 256)) = 8080.
Proof.
  assert (H : 0 <= 8080 < 65536) by (split; [discriminate | reflexivity]).
  split; [exact H | exact (port_bytes_round_trip 8080 H)].
Defined.

(** ** Steps that cannot panic, leave the remote alone, keep the count *)

Lemma safe_bind {A B} (m : M A) (k : A -> M B) :
  safe m -> (forall a, safe (k a)) -> safe (bind m k).
Proof.
  intros Hm Hk s. unfold bind. specialize (Hm s).
  destruct (m s) as [s1 [a | |]]; cbn [snd] in *;
    [apply Hk | discriminate | contradiction].
Qed.

Lemma safe_ret {A} (a : A) : safe (ret a).
Proof. intros s. discriminate. Qed.

Lemma safe_return {A} : safe (@return_ A).
Proof. intros s. discriminate. Qed.

Lemma safe_log (m : logmsg) : safe (log m).
Proof. intros s. discriminate. Qed.

Lemma safe_return_if (c : bool) (m : logmsg) : safe (return_if c m).
Proof. intros s. destruct c; discriminate. Qed.

Lemma safe_readFull (n : nat) (m : logmsg) : safe (readFull n m).
Proof.
  intros s. unfold readFull. destruct (length (cin s) <? n)%nat; discriminate.
Qed.

Lemma safe_clientWrite (e : Env) (bs : list byte) : safe (clientWrite e bs).
Proof. intros s. discriminate. Qed.

Lemma safe_lookupIP (e : Env) (host : list byte) : safe (lookupIP e host).
Proof. intros s. discriminate. Qed.

Lemma safe_dialTCP (e : Env) (a : TCPAddr) : safe (dialTCP e a).
Proof. intros s. unfold dialTCP. destruct (DialTCP e a); discriminate. Qed.

Create HintDb safe.

#[local] Hint Resolve safe_ret safe_return safe_log safe_return_if
  safe_readFull safe_clientWrite safe_lookupIP safe_dialTCP : safe.

Ltac safe_steps :=
  repeat (first [ apply safe_bind; [|intros] | solve [auto with safe] ]).

Lemma safe_greeting (e : Env) : safe (greeting e).
Proof. unfold greeting. safe_steps. Qed.

Lemma safe_dispatch (e : Env) hdr : safe (dispatch e hdr).
Proof.
  unfold dispatch. safe_steps.
  - destruct (negb (at_ 1 hdr =? x01)%byte); safe_steps.
  - destruct ((at_ 3 hdr =? x01)%byte || (at_ 3 hdr =? x04)%byte);
      [safe_steps|].
    destruct (at_ 3 hdr =? x03)%byte; safe_steps.
    match goal with
    | |- safe (match ?x with _ => _ end) => destruct x as [[|? ?]|]
    end; safe_steps.
  - match goal with
    | |- safe (let (_, _) := ?x in _) => destruct x
    end. safe_steps.
Qed.

Lemma safe_request (e : Env) : safe (request e).
Proof.
  unfold request. apply safe_bind; [auto with safe|].
  intros. apply safe_dispatch.
Qed.

Lemma safe_connect (e : Env) a reply : safe (connect e a reply).
Proof.
  unfold connect. safe_steps.
  match goal with |- safe (match ?x with _ => _ end) => destruct x end;
    safe_steps.
Qed.

(** With a 4- or 16-byte target no index into [reply] is out of range. *)
Lemma safe_after_request (e : Env) (a : TCPAddr) :
  ip_sized (IP a) -> safe (after_request e a).
Proof.
  intros Hsz. unfold after_request.
  apply safe_bind; [apply safe_connect|]. intros c.
  apply safe_bind; [|intros; apply safe_ret].
  intros s. rewrite (sendReply_frame e a s Hsz). apply safe_return_if.
Qed.

Lemma remote_written_app (t u : list event) :
  remote_written (t ++ u) = remote_written t ++ remote_written u.
Proof.
  induction t as [|ev t IH]; simpl; [reflexivity|].
  destruct ev; simpl; rewrite IH; reflexivity.
Qed.

Lemma client_only_bind {A B} (m : M A) (k : A -> M B) :
  client_only m -> (forall a, client_only (k a)) -> client_only (bind m k).
Proof.
  intros Hm Hk s. unfold bind. specialize (Hm s).
  destruct (m s) as [s1 [a | |]]; cbn [fst] in *; try exact Hm.
  destruct Hm as (H1 & H2 & H3 & H4).
  destruct (Hk a s1) as (K1 & K2 & K3 & K4).
  rewrite K1, K2, K3, K4. auto.
Qed.

Lemma client_only_ret {A} (a : A) : client_only (ret a).
Proof. intros s. cbn. auto. Qed.

Lemma client_only_return {A} : client_only (@return_ A).
Proof. intros s. cbn. auto. Qed.

Lemma client_only_panic {A} : client_only (@panic A).
Proof. intros s. cbn. auto. Qed.

Lemma client_only_log (m : logmsg) : client_only (log m).
Proof.
  intros s. cbn. rewrite remote_written_app. cbn. rewrite app_nil_r. auto.
Qed.

Lemma client_only_return_if (c : bool) (m : logmsg) :
  client_only (return_if c m).
Proof.
  destruct c; cbn [return_if].
  - apply client_only_bind; [apply client_only_log|].
    intros; apply client_only_return.
  - apply client_only_ret.
Qed.

Lemma client_only_check (c : bool) : client_only (check c).
Proof. destruct c; [apply client_only_ret | apply client_only_panic]. Qed.

Lemma client_only_readFull (n : nat) (m : logmsg) : client_only (readFull n m).
Proof.
  intros s. unfold readFull. destruct (length (cin s) <? n)%nat; cbn;
    rewrite !remote_written_app; cbn; rewrite !app_nil_r; auto.
Qed.

Lemma client_only_clientWrite (e : Env) (bs : list byte) :
  client_only (clientWrite e bs).
Proof.
  intros s. cbn. rewrite remote_written_app. cbn. rewrite app_nil_r. auto.
Qed.

Lemma client_only_lookupIP (e : Env) (host : list byte) :
  client_only (lookupIP e host).
Proof.
  intros s. cbn. rewrite remote_written_app. cbn. rewrite app_nil_r. auto.
Qed.

Create HintDb client_only.

#[local] Hint Resolve client_only_ret client_only_return client_only_panic
  client_only_log client_only_return_if client_only_check
  client_only_readFull client_only_clientWrite client_only_lookupIP
  : client_only.

Ltac client_only_steps :=
  repeat (first [ apply client_only_bind; [|intros]
                | solve [auto with client_only] ]).

Lemma client_only_greeting (e : Env) : client_only (greeting e).
Proof. unfold greeting. client_only_steps. Qed.

Lemma client_only_dispatch (e : Env) hdr : client_only (dispatch e hdr).
Proof.
  unfold dispatch. client_only_steps.
  - destruct (negb (at_ 1 hdr =? x01)%byte); client_only_steps.
  - destruct ((at_ 3 hdr =? x01)%byte || (at_ 3 hdr =? x04)%byte);
      [client_only_steps|].
    destruct (at_ 3 hdr =? x03)%byte; client_only_steps.
    match goal with
    | |- client_only (match ?x with _ => _ end) => destruct x as [[|? ?]|]
    end; client_only_steps.
  - match goal with
    | |- client_only (let (_, _) := ?x in _) => destruct x
    end. client_only_steps.
Qed.

Lemma client_only_request (e : Env) : client_only (request e).
Proof.
  unfold request. apply client_only_bind; [auto with client_only|].
  intros. apply client_only_dispatch.
Qed.

Lemma client_only_sendReply (e : Env) a reply :
  client_only (sendReply e a reply).
Proof. unfold sendReply. client_only_steps. Qed.

Lemma counted_emit_quiet (ev : event) (s : State) :
  written [ev] = [] -> counted s -> counted (emit ev s).
Proof.
  unfold counted. intros He H. rewrite written_emit, He, app_nil_r. exact H.
Qed.

Lemma counted_write (bs : list byte) (s : State) :
  counted s -> counted (emit (ClientWrite bs) (bump_cwrites s)).
Proof.
  unfold counted. intros H. rewrite written_emit, length_app. cbn.
  rewrite H. lia.
Qed.

Lemma keeps_count_bind {A B} (m : M A) (k : A -> M B) :
  keeps_count m -> (forall a, keeps_count (k a)) -> keeps_count (bind m k).
Proof.
  intros Hm Hk s Hs. unfold bind. specialize (Hm s Hs).
  destruct (m s) as [s1 [a | |]]; cbn [fst] in *; try exact Hm.
  apply Hk. exact Hm.
Qed.

Lemma keeps_count_ret {A} (a : A) : keeps_count (ret a).
Proof. intros s H. exact H. Qed.

Lemma keeps_count_return {A} : keeps_count (@return_ A).
Proof. intros s H. exact H. Qed.

Lemma keeps_count_panic {A} : keeps_count (@panic A).
Proof. intros s H. exact H. Qed.

Lemma keeps_count_log (m : logmsg) : keeps_count (log m).
Proof. intros s H. apply counted_emit_quiet; [reflexivity | exact H]. Qed.

Lemma keeps_count_return_if (c : bool) (m : logmsg) :
  keeps_count (return_if c m).
Proof.
  destruct c; cbn [return_if].
  - apply keeps_count_bind; [apply keeps_count_log|].
    intros; apply keeps_count_return.
  - apply keeps_count_ret.
Qed.

Lemma keeps_count_check (c : bool) : keeps_count (check c).
Proof. destruct c; [apply keeps_count_ret | apply keeps_count_panic]. Qed.

Lemma keeps_count_readFull (n : nat) (m : logmsg) : keeps_count (readFull n m).
Proof.
  intros s H. unfold readFull. destruct (length (cin s) <? n)%nat; cbn [fst];
    repeat (apply counted_emit_quiet; [reflexivity|]); exact H.
Qed.

Lemma keeps_count_clientWrite (e : Env) (bs : list byte) :
  keeps_count (clientWrite e bs).
Proof. intros s H. apply counted_write. exact H. Qed.

Lemma keeps_count_lookupIP (e : Env) (host : list byte) :
  keeps_count (lookupIP e host).
Proof. intros s H. apply counted_emit_quiet; [reflexivity | exact H]. Qed.

Lemma keeps_count_dialTCP (e : Env) (a : TCPAddr) : keeps_count (dialTCP e a).
Proof.
  intros s H. unfold dialTCP. destruct (DialTCP e a); cbn [fst];
    apply counted_emit_quiet; try reflexivity; exact H.
Qed.

Create HintDb keeps_count.

#[local] Hint Resolve keeps_count_ret keeps_count_return keeps_count_panic
  keeps_count_log keeps_count_return_if keeps_count_check
  keeps_count_readFull keeps_count_clientWrite keeps_count_lookupIP
  keeps_count_dialTCP : keeps_count.

Ltac keeps_count_steps :=
  repeat (first [ apply keeps_count_bind; [|intros]
                | solve [auto with keeps_count] ]).

Lemma keeps_count_greeting (e : Env) : keeps_count (greeting e).
Proof. unfold greeting. keeps_count_steps. Qed.

Lemma keeps_count_dispatch (e : Env) hdr : keeps_count (dispatch e hdr).
Proof.
  unfold dispatch. keeps_count_steps.
  - destruct (negb (at_ 1 hdr =? x01)%byte); keeps_count_steps.
  - destruct ((at_ 3 hdr =? x01)%byte || (at_ 3 hdr =? x04)%byte);
      [keeps_count_steps|].
    destruct (at_ 3 hdr =? x03)%byte; keeps_count_steps.
    match goal with
    | |- keeps_count (match ?x with _ => _ end) => destruct x as [[|? ?]|]
    end; keeps_count_steps.
  - match goal with
    | |- keeps_count (let (_, _) := ?x in _) => destruct x
    end. keeps_count_steps.
Qed.

Lemma keeps_count_request (e : Env) : keeps_count (request e).
Proof.
  unfold request. apply keeps_count_bind; [auto with keeps_count|].
  intros. apply keeps_count_dispatch.
Qed.

(** ** Every way the negotiation can go *)

Lemma bind_Panic {A B} (m : M A) (k : A -> M B) s s' :
  m s = (s', Panic) -> bind m k s = (s', Panic).
Proof. unfold bind. intros ->. reflexivity. Qed.

Lemma mute_readFull (n : nat) (m : logmsg) : mute (readFull n m).
Proof.
  intros s. unfold readFull.
  destruct (length (cin s) <? n)%nat; cbn [fst]; trace_simpl; reflexivity.
Qed.

Lemma after_request_dialled (e : Env) (a : TCPAddr) (s : State) :
  dialled (trace (fst (after_request e a s))) = dialled (trace s) ++ [a].
Proof.
  unfold after_request. destruct (DialTCP e a) as [c|] eqn:D.
  - erewrite (bind_Next (connect e a _)) by (apply connect_opened; exact D).
    match goal with
    | |- dialled (trace (fst (bind (sendReply e a ?r) ?k ?s3))) = _ =>
        pose proof (quiet_sendReply e a r s3) as Q; unfold bind;
        destruct (sendReply e a r s3) as [s4 [[] | |]]
    end; cbn [fst ret] in *; rewrite Q; trace_simpl; reflexivity.
  - erewrite (bind_Return (connect e a _)) by (apply connect_refused; exact D).
    cbn [fst]. trace_simpl. reflexivity.
Qed.

Lemma counted_initial (e : Env) : counted (initial e).
Proof. reflexivity. Qed.

(** A run that dialled [a] reached line 166 in a state [s2] in which the
    method selection is all that was written; the rest of the negotiation
    is lines 166-184 run from [s2]. *)
Lemma negotiate_reaches_dial (e : Env) (a : TCPAddr) :
  In a (dialled (trace (fst (negotiate e (initial e))))) ->
  exists s2,
    negotiate e (initial e) = after_request e a s2 /\
    written (trace s2) = [[x05; x00]] /\
    dialled (trace s2) = [] /\
    cwrites s2 = 1%nat /\
    remote s2 = None /\
    remote_written (trace s2) = [] /\
    (sane_dns e -> ip_sized (IP a)).
Proof.
  intros Hin. rewrite negotiate_split in *.
  pose proof (quiet_greeting e (initial e)) as Qg.
  pose proof (keeps_count_greeting e (initial e) (counted_initial e)) as Cg.
  pose proof (client_only_greeting e (initial e)) as Og.
  unfold bind in *.
  destruct (greeting e (initial e)) as [s1 [[] | |]] eqn:G;
    cbn [fst initial trace dialled remote remote_written] in *;
    try (rewrite Qg in Hin; contradiction).
  apply greeting_inv in G. cbn [initial trace written app] in G.
  unfold after_greeting in *. unfold bind in *.
  pose proof (quiet_request e s1) as Qr.
  pose proof (keeps_count_request e s1 Cg) as Cr.
  pose proof (client_only_request e s1) as Or.
  destruct (request e s1) as [s2 [[a' reply] | |]] eqn:R;
    cbn [fst] in *; rewrite Qg in Qr;
    try (rewrite Qr in Hin; contradiction).
  apply request_inv in R as (-> & Hsz & Hw & _).
  change (In a (dialled (trace (fst (after_request e a' s2))))) in Hin.
  rewrite after_request_dialled, Qr in Hin.
  destruct Hin as [<- | []].
  exists s2. split; [reflexivity|].
  rewrite Hw, G. split; [reflexivity|]. split; [exact Qr|].
  split; [unfold counted in Cr; rewrite Cr, Hw, G; reflexivity|].
  destruct Og as (O1 & _ & _ & O4). destruct Or as (P1 & _ & _ & P4).
  split; [rewrite P1; exact O1|].
  split; [rewrite P4; exact O4 | exact Hsz].
Qed.

(** X8. With a resolver that returns 4- or 16-byte addresses, no client
    input makes the negotiation panic: every index and slice bound into
    the 22-byte [reply] array (lines 176-180) is within range. *)
Theorem negotiation_never_panics (e : Env) :
  sane_dns e ->
  snd (negotiate e (initial e)) <> Panic.
Proof.
  intros Hs. rewrite negotiate_split. unfold bind.
  pose proof (safe_greeting e (initial e)) as Sg.
  destruct (greeting e (initial e)) as [s1 [[] | |]];
    cbn [snd] in *; try discriminate; try contradiction.
  unfold after_greeting, bind.
  pose proof (safe_request e s1) as Sr.
  destruct (request e s1) as [s2 [[a reply] | |]] eqn:R;
    cbn [snd] in *; try discriminate; try contradiction.
  apply request_inv in R as (-> & Hsz & _ & _).
  apply (safe_after_request e a (Hsz Hs) s2).
Qed.

Lemma negotiation_never_panics_witness :
  sane_dns
    (env [x05; x01; x00; x05; x01; x00; x03; x02; x61; x62; x01; xbb]
         (fun _ => Some [[x0a; x00; x00; x07]])
         (fun _ => Some (sock [] OtherError))) /\
  snd (negotiate
         (env [x05; x01; x00; x05; x01; x00; x03; x02; x61; x62; x01; xbb]
              (fun _ => Some [[x0a; x00; x00; x07]])
              (fun _ => Some (sock [] OtherError)))
         (initial
            (env [x05; x01; x00; x05; x01; x00; x03; x02; x61; x62; x01; xbb]
                 (fun _ => Some [[x0a; x00; x00; x07]])
                 (fun _ => Some (sock [] OtherError)))))
  <> Panic.
Proof.
  assert (Hs : sane_dns
    (env [x05; x01; x00; x05; x01; x00; x03; x02; x61; x62; x01; xbb]
         (fun _ => Some [[x0a; x00; x00; x07]])
         (fun _ => Some (sock [] OtherError)))).
  { intros host ips ip H Hin. cbn in H. inversion H; subst.
    destruct Hin as [<- | []]. left. reflexivity. }
  split; [exact Hs|].
  exact (negotiation_never_panics _ Hs).
Defined.

(** X9. When the dial succeeds but the client socket reports an error on
    the write of the success reply, the relay is never started: the run
    ends, whatever the fuel, with the outbound socket closed and then the
    client socket closed, and nothing was written to the remote. *)
Theorem reply_write_failed (e : Env) (a : TCPAddr) (c : TCPConn) (fuel : nat) :
  sane_dns e ->
  In a (dialled (trace (fst (negotiate e (initial e))))) ->
  DialTCP e a = Some c ->
  werr (wr (client e) 1%nat (success_frame a)) <> None ->
  exists s pre,
    clientLoop fuel e = Some s /\
    trace s = pre ++ [Dial a; ClientWrite (success_frame a);
                      Log LogWriteReply; CloseRemote; CloseClient] /\
    remote_written (trace s) = [].
Proof.
  intros Hs Hin D Hw.
  destruct (negotiate_reaches_dial e a Hin)
    as (s2 & Hn & _ & _ & Hc & _ & Hr & Hsz).
  specialize (Hsz Hs).
  assert (E : is_err (wr (client e) 1%nat (success_frame a)) = true).
  { unfold is_err. destruct (werr (wr (client e) 1%nat (success_frame a)));
      [reflexivity | contradiction]. }
  assert (Hn' : negotiate e (initial e)
                = (emit (Log LogWriteReply)
                     (emit (ClientWrite (success_frame a))
                        (bump_cwrites (emit (Dial a) (open_remote c s2)))),
                   Return)).
  { rewrite Hn. unfold after_request.
    erewrite (bind_Next (connect e a _)) by (apply connect_opened; exact D).
    apply bind_Return. rewrite (sendReply_frame e a _ Hsz).
    cbn [cwrites emit open_remote]. rewrite Hc, E. reflexivity. }
  eexists. exists (trace s2). split; [|split].
  - apply clientLoop_returns. exact Hn'.
  - cbn. rewrite <- !app_assoc. reflexivity.
  - cbn. rewrite !remote_written_app, Hr. reflexivity.
Qed.

Lemma reply_write_failed_witness :
  sane_dns
    {| client :=
         {| incoming := [x05; x01; x00; x05; x01; x00; x01;
                         x01; x02; x03; x04; x01; xbb];
            ending := EOF;
            wr := fun k bs =>
                    match k with
                    | O => {| nw := length bs; werr := None |}
                    | S _ => {| nw := 0; werr := Some OtherError |}
                    end;
            LocalAddr := {| IP := []; Port := 0 |} |};
       LookupIP := no_dns;
       DialTCP := fun _ => Some (sock [] EOF) |} /\
  exists s pre,
    clientLoop 0
      {| client :=
           {| incoming := [x05; x01; x00; x05; x01; x00; x01;
                           x01; x02; x03; x04; x01; xbb];
              ending := EOF;
              wr := fun k bs =>
                      match k with
                      | O => {| nw := length bs; werr := None |}
                      | S _ => {| nw := 0; werr := Some OtherError |}
                      end;
              LocalAddr := {| IP := []; Port := 0 |} |};
         LookupIP := no_dns;
         DialTCP := fun _ => Some (sock [] EOF) |} = Some s /\
    trace s
    = pre ++ [Dial {| IP := [x01; x02; x03; x04]; Port := 443 |};
              ClientWrite
                (success_frame {| IP := [x01; x02; x03; x04]; Port := 443 |});
              Log LogWriteReply; CloseRemote; CloseClient] /\
    remote_written (trace s) = [].
Proof.
  assert (Hs : sane_dns
    {| client :=
         {| incoming := [x05; x01; x00; x05; x01; x00; x01;
                         x01; x02; x03; x04; x01; xbb];
            ending := EOF;
            wr := fun k bs =>
                    match k with
                    | O => {| nw := length bs; werr := None |}
                    | S _ => {| nw := 0; werr := Some OtherError |}
                    end;
            LocalAddr := {| IP := []; Port := 0 |} |};
       LookupIP := no_dns;
       DialTCP := fun _ => Some (sock [] EOF) |}).
  { intros host ips ip H. discriminate H. }
  split; [exact Hs|].
  apply (reply_write_failed _ {| IP := [x01; x02; x03; x04]; Port := 443 |}
           (sock [] EOF) 0%nat Hs (or_introl eq_refl) eq_refl).
  discriminate.
Defined.

Lemma mute_return_if (c : bool) (m : logmsg) : mute (return_if c m).
Proof.
  intros s. destruct c; cbn [return_if fst bind log return_ ret];
    trace_simpl; reflexivity.
Qed.

(** Whichever way the greeting goes, it writes nothing or it writes the
    method selection. *)
Lemma greeting_writes (e : Env) (s : State) :
  written (trace (fst (greeting e s))) = written (trace s) \/
  written (trace (fst (greeting e s))) = written (trace s) ++ [[x05; x00]].
Proof.
  unfold greeting.
  destruct (readFull 2 LogReadVersionMethods s) as [s1 [vm | |]] eqn:R1.
  2:{ rewrite (bind_Return _ _ _ _ R1). left.
      pose proof (mute_readFull 2 LogReadVersionMethods s) as Q.
      rewrite R1 in Q. exact Q. }
  2:{ rewrite (bind_Panic _ _ _ _ R1). left.
      pose proof (mute_readFull 2 LogReadVersionMethods s) as Q.
      rewrite R1 in Q. exact Q. }
  rewrite (bind_Next _ _ _ _ _ R1).
  apply readFull_inv in R1 as (Hlen & _ & ->). explode vm.
  cbn [at_ nth].
  match goal with
  | |- context [bind _ _ ?s1] => assert (W1 : written (trace s1) = written (trace s))
      by (trace_simpl; reflexivity); generalize dependent s1
  end.
  intros s1 W1.
  destruct (Byte.eqb b x05) eqn:Ev; cbn [negb return_if].
  2:{ left. cbn [bind log return_ fst]. trace_simpl. exact W1. }
  apply Byte.byte_dec_bl in Ev. subst b.
  rewrite (bind_Next _ _ _ _ tt eq_refl).
  destruct (Byte.eqb b0 x00); cbn [return_if].
  { left. cbn [bind log return_ fst]. trace_simpl. exact W1. }
  rewrite (bind_Next _ _ _ _ tt eq_refl).
  destruct (readFull (b2n b0) LogReadMethods s1) as [s2 [ms | |]] eqn:R2;
    pose proof (mute_readFull (b2n b0) LogReadMethods s1) as Q;
    rewrite R2 in Q; cbn [fst] in Q.
  2:{ rewrite (bind_Return _ _ _ _ R2). left. cbn [fst].
      rewrite Q. exact W1. }
  2:{ rewrite (bind_Panic _ _ _ _ R2). left. cbn [fst].
      rewrite Q. exact W1. }
  rewrite (bind_Next _ _ _ _ _ R2).
  destruct (existsb (fun m => Byte.eqb m x00) ms); cbn [negb return_if].
  2:{ left. cbn [bind log return_ fst]. trace_simpl. rewrite Q. exact W1. }
  rewrite (bind_Next _ _ _ _ tt eq_refl).
  right. unfold bind, clientWrite. cbn [store].
  match goal with
  | |- context [return_if ?c] => destruct c
  end; cbn [return_if bind log return_ ret fst]; trace_simpl;
    rewrite Q, W1; reflexivity.
Qed.

Lemma replies_early_bind {A B} (m : M A) (k : A -> M B) :
  replies_early m -> (forall a, replies_early (k a)) ->
  replies_early (bind m k).
Proof.
  intros Hm Hk s. unfold bind. destruct (Hm s) as (ws & Hw & Hc).
  destruct (m s) as [s1 [a | |]]; cbn [fst snd] in *.
  - destruct Hc as [-> | [Hc _]]; [|discriminate].
    destruct (Hk a s1) as (ws2 & Hw2 & Hc2).
    exists ws2. rewrite Hw2, Hw, app_nil_r. split; [reflexivity | exact Hc2].
  - exists ws. split; [exact Hw|].
    destruct Hc as [-> | [_ Hc]]; [left; reflexivity | right; auto].
  - exists ws. split; [exact Hw|].
    destruct Hc as [-> | [Hc _]]; [left; reflexivity | discriminate].
Qed.

Lemma replies_early_mute {A} (m : M A) : mute m -> replies_early m.
Proof.
  intros H s. exists []. rewrite app_nil_r. split; [apply H | left; reflexivity].
Qed.

Lemma mute_ret {A} (a : A) : mute (ret a).
Proof. intros s. reflexivity. Qed.

Lemma mute_return {A} : mute (@return_ A).
Proof. intros s. reflexivity. Qed.

Lemma mute_log (m : logmsg) : mute (log m).
Proof. intros s. cbn [log fst]. trace_simpl. reflexivity. Qed.

Lemma mute_lookupIP (e : Env) (host : list byte) : mute (lookupIP e host).
Proof. intros s. cbn [lookupIP fst]. trace_simpl. reflexivity. Qed.

(** Lines 101-103 and 160-162: one four-byte frame, then [return]. *)
Lemma replies_early_reject (e : Env) (A : Type) (f : list byte) :
  f = [x05; x07; x00; x00] \/ f = [x05; x08; x00; x00] ->
  replies_early (bind (clientWrite e f) (fun _ => @return_ A)).
Proof.
  intros Hf s. exists [f]. cbn [bind clientWrite return_ fst snd].
  trace_simpl. split; [reflexivity|]. right. split; [reflexivity|].
  destruct Hf as [-> | ->]; auto.
Qed.

Create HintDb replies_early.

#[local] Hint Resolve mute_ret mute_return mute_log mute_lookupIP
  mute_readFull mute_return_if replies_early_mute : replies_early.

Ltac replies_early_steps :=
  repeat (first [ apply replies_early_bind; [|intros]
                | solve [auto with replies_early] ]).

Lemma replies_early_dispatch (e : Env) hdr : replies_early (dispatch e hdr).
Proof.
  unfold dispatch. replies_early_steps.
  - destruct (negb (at_ 1 hdr =? x01)%byte); [|replies_early_steps].
    apply replies_early_bind; [auto with replies_early|]. intros.
    apply replies_early_reject. left. reflexivity.
  - destruct ((at_ 3 hdr =? x01)%byte || (at_ 3 hdr =? x04)%byte);
      [replies_early_steps|].
    destruct (at_ 3 hdr =? x03)%byte.
    + replies_early_steps.
      match goal with
      | |- replies_early (match ?x with _ => _ end) => destruct x as [[|? ?]|]
      end; replies_early_steps.
    + apply replies_early_bind; [auto with replies_early|]. intros.
      apply replies_early_reject. right. reflexivity.
  - match goal with
    | |- replies_early (let (_, _) := ?x in _) => destruct x
    end. replies_early_steps.
Qed.

Lemma replies_early_request (e : Env) : replies_early (request e).
Proof.
  unfold request. apply replies_early_bind; [auto with replies_early|].
  intros. apply replies_early_dispatch.
Qed.

(** X10. Whatever the client sends, and with a resolver that returns 4-
    or 16-byte addresses, the negotiation writes one of six things and
    nothing else: nothing; the method selection; the method selection and
    one of the two four-byte rejections; or, having dialled exactly one
    address, the method selection and the general-failure frame (the dial
    failed) or the success frame (it succeeded) for that address.  So a
    reply is never sent before the method selection, and never twice. *)
Theorem negotiation_output (e : Env) :
  sane_dns e ->
  written (trace (fst (negotiate e (initial e)))) = [] \/
  written (trace (fst (negotiate e (initial e)))) = [[x05; x00]] \/
  written (trace (fst (negotiate e (initial e))))
  = [[x05; x00]; [x05; x07; x00; x00]] \/
  written (trace (fst (negotiate e (initial e))))
  = [[x05; x00]; [x05; x08; x00; x00]] \/
  exists a,
    dialled (trace (fst (negotiate e (initial e)))) = [a] /\
    written (trace (fst (negotiate e (initial e))))
    = [[x05; x00];
       match DialTCP e a with
       | Some _ => success_frame a
       | None => failure_frame a
       end].
Proof.
  intros Hs. rewrite negotiate_split. unfold bind.
  pose proof (greeting_writes e (initial e)) as Gw.
  pose proof (quiet_greeting e (initial e)) as Qg.
  destruct (greeting e (initial e)) as [s1 [[] | |]] eqn:G;
    cbn [fst initial trace written dialled app] in *;
    try (destruct Gw as [-> | ->]; auto).
  apply greeting_inv in G. cbn [initial trace written app] in G. clear Gw.
  unfold after_greeting, bind.
  destruct (replies_early_request e s1) as (ws & Rw & Rc).
  destruct (request e s1) as [s2 [[a reply] | |]] eqn:R; cbn [fst snd] in *.
  - apply request_inv in R as (-> & Hsz & Hw & Hd). specialize (Hsz Hs).
    do 4 right. exists a.
    change (dialled (trace (fst (after_request e a s2))) = [a] /\
            written (trace (fst (after_request e a s2)))
            = [[x05; x00];
               match DialTCP e a with
               | Some _ => success_frame a
               | None => failure_frame a
               end]).
    destruct (establish_trace e a s2 Hsz) as [Ed Ew].
    rewrite Ed, Ew, Hw, Hd, G, Qg. split; reflexivity.
  - rewrite Rw, G.
    destruct Rc as [-> | [_ [-> | ->]]]; cbn [app]; auto.
  - rewrite Rw, G.
    destruct Rc as [-> | [Rc _]]; [cbn [app]; auto | discriminate].
Qed.

Lemma negotiation_output_witness :
  sane_dns (env [x05; x01; x00; x05; x01; x00; x09] no_dns no_route) /\
  (written (trace (fst (negotiate
      (env [x05; x01; x00; x05; x01; x00; x09] no_dns no_route)
      (initial (env [x05; x01; x00; x05; x01; x00; x09] no_dns no_route)))))
   = [] \/
   written (trace (fst (negotiate
      (env [x05; x01; x00; x05; x01; x00; x09] no_dns no_route)
      (initial (env [x05; x01; x00; x05; x01; x00; x09] no_dns no_route)))))
   = [[x05; x00]] \/
   written (trace (fst (negotiate
      (env [x05; x01; x00; x05; x01; x00; x09] no_dns no_route)
      (initial (env [x05; x01; x00; x05; x01; x00; x09] no_dns no_route)))))
   = [[x05; x00]; [x05; x07; x00; x00]] \/
   written (trace (fst (negotiate
      (env [x05; x01; x00; x05; x01; x00; x09] no_dns no_route)
      (initial (env [x05; x01; x00; x05; x01; x00; x09] no_dns no_route)))))
   = [[x05; x00]; [x05; x08; x00; x00]] \/
   exists a,
     dialled (trace (fst (negotiate
        (env [x05; x01; x00; x05; x01; x00; x09] no_dns no_route)
        (initial (env [x05; x01; x00; x05; x01; x00; x09] no_dns no_route)))))
     = [a] /\
     written (trace (fst (negotiate
        (env [x05; x01; x00; x05; x01; x00; x09] no_dns no_route)
        (initial (env [x05; x01; x00; x05; x01; x00; x09] no_dns no_route)))))
     = [[x05; x00];
        match DialTCP (env [x05; x01; x00; x05; x01; x00; x09] no_dns no_route) a
        with
        | Some _ => success_frame a
        | None => failure_frame a
        end]).
Proof.
  assert (Hs : sane_dns (env [x05; x01; x00; x05; x01; x00; x09] no_dns no_route)).
  { intros host ips ip H. discriminate H. }
  split; [exact Hs|].
  exact (negotiation_output _ Hs).
Defined.

(** * Beyond the specification: the relay *)

Lemma delivered_app w k (l1 l2 : list (list byte)) :
  delivered w k (l1 ++ l2)
  = delivered w k l1 ++ delivered w (k + length l1) l2.
Proof.
  revert k. induction l1 as [|bs l1 IH]; intros k; cbn [delivered app length].
  - rewrite Nat.add_0_r. reflexivity.
  - rewrite IH, <- app_assoc, Nat.add_succ_r. reflexivity.
Qed.

(** A [Read] into the 4096-byte buffer either finds the stream used up, or
    takes a non-empty front of what is unread. *)
Lemma sockRead_cases (c : TCPConn) (unread : list byte) :
  (unread = [] /\ sockRead c unread = ([], Some (ending c), [])) \/
  (exists got rest,
     sockRead c unread = (got, None, rest) /\ got ++ rest = unread /\
     got <> [] /\ (length rest < length unread)%nat).
Proof.
  destruct unread as [|b l]; [left; split; reflexivity|].
  right. exists (firstn 4096 (b :: l)), (skipn 4096 (b :: l)).
  split; [reflexivity|]. split; [apply firstn_skipn|].
  split; [discriminate|].
  rewrite length_skipn. cbn [length]. lia.
Qed.

Lemma remote_written_emit (ev : event) (s : State) :
  remote_written (trace (emit ev s))
  = remote_written (trace s) ++ remote_written [ev].
Proof. unfold emit. cbn [trace]. apply remote_written_app. Qed.

(** Lines 207-215, whatever the remote socket does: if the write loop ends,
    the slices it handed to [remote.Write] delivered a front of the chunk,
    in order, and all of it when the loop ended without an error. *)
Lemma writeRemote_prefix (r : TCPConn) :
  forall fuel chunk s s' o,
    writeRemote fuel r chunk s = Some (s', o) ->
    exists slices,
      remote_written (trace s') = remote_written (trace s) ++ slices /\
      rwrites s' = (rwrites s + length slices)%nat /\
      (exists tail, delivered (wr r) (rwrites s) slices ++ tail = chunk) /\
      (o = Next tt -> delivered (wr r) (rwrites s) slices = chunk) /\
      written (trace s') = written (trace s) /\
      cin s' = cin s /\ rin s' = rin s /\ cwrites s' = cwrites s /\
      remote s' = remote s.
Proof.
  induction fuel as [|fuel IH]; intros chunk s s' o H.
  - destruct chunk; [|discriminate]. inversion H; subst.
    exists []. rewrite app_nil_r, Nat.add_0_r.
    repeat split; try reflexivity. exists []. reflexivity.
  - destruct chunk as [|b chunk].
    { inversion H; subst. exists []. rewrite app_nil_r, Nat.add_0_r.
      repeat split; try reflexivity. exists []. reflexivity. }
    cbn [writeRemote] in H.
    set (res := wr r (rwrites s) (b :: chunk)) in *.
    destruct (werr res) as [[|]|] eqn:E.
    + apply IH in H as (sl & H1 & H2 & (tl & H3) & H4 & H5 & H6 & H7 & H8 & H9).
      revert H1 H2 H3 H4 H5. rewrite remote_written_emit. trace_simpl.
      cbn [remote_written rwrites bump_rwrites emit cin rin cwrites remote
           trace] in *.
      intros H1 H2 H3 H4 H5.
      exists ((b :: chunk) :: sl). cbn [delivered length]. fold res.
      rewrite H1, H2, <- app_assoc.
      split; [reflexivity|]. split; [lia|].
      split; [exists tl; rewrite <- app_assoc, H3; apply firstn_skipn|].
      split; [intros Ho; rewrite (H4 Ho); apply firstn_skipn|].
      auto.
    + inversion H; subst; clear H.
      exists [b :: chunk]. rewrite !remote_written_emit. trace_simpl.
      cbn [remote_written delivered length app rwrites bump_rwrites emit].
      fold res. rewrite app_nil_r.
      split; [reflexivity|]. split; [lia|].
      split; [exists (skipn (nw res) (b :: chunk)); apply firstn_skipn|].
      split; [discriminate|]. auto.
    + apply IH in H as (sl & H1 & H2 & (tl & H3) & H4 & H5 & H6 & H7 & H8 & H9).
      revert H1 H2 H3 H4 H5. rewrite remote_written_emit. trace_simpl.
      cbn [remote_written rwrites bump_rwrites emit cin rin cwrites remote
           trace] in *.
      intros H1 H2 H3 H4 H5.
      exists ((b :: chunk) :: sl). cbn [delivered length]. fold res.
      rewrite H1, H2, <- app_assoc.
      split; [reflexivity|]. split; [lia|].
      split; [exists tl; rewrite <- app_assoc, H3; apply firstn_skipn|].
      split; [intros Ho; rewrite (H4 Ho); apply firstn_skipn|].
      auto.
Qed.

Lemma writeRemote_nil (fuel : nat) (r : TCPConn) (s : State) :
  writeRemote fuel r [] s = Some (s, Next tt).
Proof. destruct fuel; reflexivity. Qed.

(** With a remote that takes at least a byte per [Write] and reports no
    error, the write loop ends within [length chunk] writes. *)
Lemma writeRemote_done (r : TCPConn) :
  progressing r ->
  forall fuel chunk s,
    (length chunk <= fuel)%nat ->
    exists s', writeRemote fuel r chunk s = Some (s', Next tt).
Proof.
  intros Hp. induction fuel as [|fuel IH]; intros chunk s Hlen.
  - destruct chunk; [|cbn in Hlen; lia]. eexists. reflexivity.
  - destruct chunk as [|b chunk]; [eexists; reflexivity|].
    cbn [writeRemote].
    destruct (Hp (rwrites s) (b :: chunk)) as [He Hn]; [discriminate|].
    assert (Hl : (length (skipn (nw (wr r (rwrites s) (b :: chunk)))
                            (b :: chunk)) <= fuel)%nat).
    { rewrite length_skipn. cbn [length] in *. lia. }
    destruct (werr (wr r (rwrites s) (b :: chunk))) as [[|]|];
      try contradiction; apply IH; exact Hl.
Qed.

(** Lines 199-216, whatever the two sockets do: if the loop returns, what
    the remote took is a front of what the client had sent, in order. *)
Lemma readClientLoop_prefix (c r : TCPConn) :
  forall fuel s s',
    readClientLoop fuel c r s = Some s' ->
    exists slices tail,
      remote_written (trace s') = remote_written (trace s) ++ slices /\
      delivered (wr r) (rwrites s) slices ++ tail = cin s /\
      rwrites s' = (rwrites s + length slices)%nat /\
      written (trace s') = written (trace s) /\
      rin s' = rin s /\ cwrites s' = cwrites s /\ remote s' = remote s.
Proof.
  induction fuel as [|fuel IH]; intros s s' H; [discriminate|].
  cbn [readClientLoop] in H.
  destruct (sockRead_cases c (cin s)) as [[Hc Hr] | (got & rest & Hr & Hg & _ & _)];
    rewrite Hr in H.
  - destruct (ending c).
    + rewrite writeRemote_nil in H. apply IH in H
        as (sl & tl & H1 & H2 & H3 & H4 & H5 & H6 & H7).
      revert H1 H2 H3 H4. rewrite remote_written_emit. trace_simpl.
      cbn [remote_written rwrites cin rin cwrites remote emit set_cin] in *.
      rewrite ?app_nil_r, Hc. intros H1 H2 H3 H4.
      exists sl, tl. auto 10.
    + inversion H; subst; clear H. exists [], [].
      rewrite !remote_written_emit. trace_simpl.
      cbn [remote_written delivered app length]. rewrite ?app_nil_r, Nat.add_0_r.
      auto 10.
  - destruct (writeRemote fuel r got _) as [[s2 o]|] eqn:W; [|discriminate].
    apply writeRemote_prefix in W
      as (sl1 & W1 & W2 & (tl1 & W3) & W4 & W5 & W6 & W7 & W8 & W9).
    revert W1 W2 W3 W4 W5. rewrite remote_written_emit. trace_simpl.
    cbn [remote_written rwrites cin rin cwrites remote emit set_cin] in *.
    rewrite ?app_nil_r. intros W1 W2 W3 W4 W5.
    destruct o as [[]| |].
    + apply IH in H as (sl2 & tl2 & H1 & H2 & H3 & H4 & H5 & H6 & H7).
      exists (sl1 ++ sl2), tl2.
      rewrite delivered_app, length_app, (W4 eq_refl), <- W2.
      split; [rewrite H1, W1, app_assoc; reflexivity|].
      split; [rewrite <- app_assoc, H2, W6; exact Hg|].
      split; [lia|]. repeat split; congruence.
    + injection H as Hs. subst s'. exists sl1, (tl1 ++ rest).
      rewrite app_assoc, W3. auto 10.
    + injection H as Hs. subst s'. exists sl1, (tl1 ++ rest).
      rewrite app_assoc, W3. auto 10.
Qed.


Lemma trace_set_rin (l : list byte) (s : State) :
  trace (set_rin l s) = trace s.
Proof. reflexivity. Qed.

Lemma trace_bump_rwrites (s : State) : trace (bump_rwrites s) = trace s.
Proof. reflexivity. Qed.

Ltac rtrace_simpl :=
  repeat (rewrite trace_set_rin || rewrite trace_bump_rwrites ||
          rewrite trace_bump_cwrites || rewrite trace_set_cin ||
          rewrite remote_written_emit);
  cbn [remote_written]; rewrite ?app_nil_r.

(** Lines 233-241, whatever the client socket does: if the write loop ends,
    the slices it handed to [client.Write] delivered a front of the chunk,
    in order, and all of it when the loop ended without an error. *)
Lemma writeClient_prefix (c : TCPConn) :
  forall fuel chunk s s' o,
    writeClient fuel c chunk s = Some (s', o) ->
    exists slices,
      written (trace s') = written (trace s) ++ slices /\
      cwrites s' = (cwrites s + length slices)%nat /\
      (exists tail, delivered (wr c) (cwrites s) slices ++ tail = chunk) /\
      (o = Next tt -> delivered (wr c) (cwrites s) slices = chunk) /\
      remote_written (trace s') = remote_written (trace s) /\
      rin s' = rin s /\ cin s' = cin s /\ rwrites s' = rwrites s /\
      remote s' = remote s.
Proof.
  induction fuel as [|fuel IH]; intros chunk s s' o H.
  - destruct chunk; [|discriminate]. inversion H; subst.
    exists []. rewrite app_nil_r, Nat.add_0_r.
    repeat split; try reflexivity. exists []. reflexivity.
  - destruct chunk as [|b chunk].
    { inversion H; subst. exists []. rewrite app_nil_r, Nat.add_0_r.
      repeat split; try reflexivity. exists []. reflexivity. }
    cbn [writeClient] in H.
    set (res := wr c (cwrites s) (b :: chunk)) in *.
    destruct (werr res) as [[|]|] eqn:E.
    + apply IH in H as (sl & H1 & H2 & (tl & H3) & H4 & H5 & H6 & H7 & H8 & H9).
      revert H1 H2 H3 H4 H5. rewrite written_emit. rtrace_simpl.
      cbn [written cwrites bump_cwrites emit rin cin rwrites remote
           trace] in *.
      intros H1 H2 H3 H4 H5.
      exists ((b :: chunk) :: sl). cbn [delivered length]. fold res.
      rewrite H1, H2, <- app_assoc.
      split; [reflexivity|]. split; [lia|].
      split; [exists tl; rewrite <- app_assoc, H3; apply firstn_skipn|].
      split; [intros Ho; rewrite (H4 Ho); apply firstn_skipn|].
      auto.
    + inversion H; subst; clear H.
      exists [b :: chunk]. rewrite !written_emit. rtrace_simpl.
      cbn [written delivered length app cwrites bump_cwrites emit].
      fold res. rewrite app_nil_r.
      split; [reflexivity|]. split; [lia|].
      split; [exists (skipn (nw res) (b :: chunk)); apply firstn_skipn|].
      split; [discriminate|]. auto.
    + apply IH in H as (sl & H1 & H2 & (tl & H3) & H4 & H5 & H6 & H7 & H8 & H9).
      revert H1 H2 H3 H4 H5. rewrite written_emit. rtrace_simpl.
      cbn [written cwrites bump_cwrites emit rin cin rwrites remote
           trace] in *.
      intros H1 H2 H3 H4 H5.
      exists ((b :: chunk) :: sl). cbn [delivered length]. fold res.
      rewrite H1, H2, <- app_assoc.
      split; [reflexivity|]. split; [lia|].
      split; [exists tl; rewrite <- app_assoc, H3; apply firstn_skipn|].
      split; [intros Ho; rewrite (H4 Ho); apply firstn_skipn|].
      auto.
Qed.

Lemma writeClient_nil (fuel : nat) (c : TCPConn) (s : State) :
  writeClient fuel c [] s = Some (s, Next tt).
Proof. destruct fuel; reflexivity. Qed.

(** With a client that takes at least a byte per [Write] and reports no
    error, the write loop ends within [length chunk] writes. *)
Lemma writeClient_done (c : TCPConn) :
  progressing c ->
  forall fuel chunk s,
    (length chunk <= fuel)%nat ->
    exists s', writeClient fuel c chunk s = Some (s', Next tt).
Proof.
  intros Hp. induction fuel as [|fuel IH]; intros chunk s Hlen.
  - destruct chunk; [|cbn in Hlen; lia]. eexists. reflexivity.
  - destruct chunk as [|b chunk]; [eexists; reflexivity|].
    cbn [writeClient].
    destruct (Hp (cwrites s) (b :: chunk)) as [He Hn]; [discriminate|].
    assert (Hl : (length (skipn (nw (wr c (cwrites s) (b :: chunk)))
                            (b :: chunk)) <= fuel)%nat).
    { rewrite length_skipn. cbn [length] in *. lia. }
    destruct (werr (wr c (cwrites s) (b :: chunk))) as [[|]|];
      try contradiction; apply IH; exact Hl.
Qed.

(** Lines 225-242, whatever the two sockets do: if the loop returns, what
    the client took is a front of what the remote had sent, in order. *)
Lemma readRemoteLoop_prefix (c r : TCPConn) :
  forall fuel s s',
    readRemoteLoop fuel c r s = Some s' ->
    exists slices tail,
      written (trace s') = written (trace s) ++ slices /\
      delivered (wr c) (cwrites s) slices ++ tail = rin s /\
      cwrites s' = (cwrites s + length slices)%nat /\
      remote_written (trace s') = remote_written (trace s) /\
      cin s' = cin s /\ rwrites s' = rwrites s /\ remote s' = remote s.
Proof.
  induction fuel as [|fuel IH]; intros s s' H; [discriminate|].
  cbn [readRemoteLoop] in H.
  destruct (sockRead_cases r (rin s)) as [[Hc Hr] | (got & rest & Hr & Hg & _ & _)];
    rewrite Hr in H.
  - destruct (ending r).
    + rewrite writeClient_nil in H. apply IH in H
        as (sl & tl & H1 & H2 & H3 & H4 & H5 & H6 & H7).
      revert H1 H2 H3 H4. rewrite written_emit. rtrace_simpl.
      cbn [written cwrites rin cin rwrites remote emit set_rin] in *.
      rewrite ?app_nil_r, Hc. intros H1 H2 H3 H4.
      exists sl, tl. auto 10.
    + inversion H; subst; clear H. exists [], [].
      rewrite !written_emit. rtrace_simpl.
      cbn [written delivered app length]. rewrite ?app_nil_r, Nat.add_0_r.
      auto 10.
  - destruct (writeClient fuel c got _) as [[s2 o]|] eqn:W; [|discriminate].
    apply writeClient_prefix in W
      as (sl1 & W1 & W2 & (tl1 & W3) & W4 & W5 & W6 & W7 & W8 & W9).
    revert W1 W2 W3 W4 W5. rewrite written_emit. rtrace_simpl.
    cbn [written cwrites rin cin rwrites remote emit set_rin] in *.
    rewrite ?app_nil_r. intros W1 W2 W3 W4 W5.
    destruct o as [[]| |].
    + apply IH in H as (sl2 & tl2 & H1 & H2 & H3 & H4 & H5 & H6 & H7).
      exists (sl1 ++ sl2), tl2.
      rewrite delivered_app, length_app, (W4 eq_refl), <- W2.
      split; [rewrite H1, W1, app_assoc; reflexivity|].
      split; [rewrite <- app_assoc, H2, W6; exact Hg|].
      split; [lia|]. repeat split; congruence.
    + injection H as Hs. subst s'. exists sl1, (tl1 ++ rest).
      rewrite app_assoc, W3. auto 10.
    + injection H as Hs. subst s'. exists sl1, (tl1 ++ rest).
      rewrite app_assoc, W3. auto 10.
Qed.


(** With a client whose stream ends in a read error, and a remote that
    takes at least a byte per [Write] without error, the loop returns once
    it has [length (cin s) + 2] units of fuel, and the remote has then
    taken every byte the client had sent. *)
Lemma readClientLoop_forwards (c r : TCPConn) :
  ending c = OtherError -> progressing r ->
  forall fuel s,
    (length (cin s) + 2 <= fuel)%nat ->
    exists s' slices,
      readClientLoop fuel c r s = Some s' /\
      remote_written (trace s') = remote_written (trace s) ++ slices /\
      delivered (wr r) (rwrites s) slices = cin s /\
      rwrites s' = (rwrites s + length slices)%nat /\
      written (trace s') = written (trace s) /\
      cin s' = [] /\ rin s' = rin s /\ cwrites s' = cwrites s /\
      remote s' = remote s.
Proof.
  intros He Hp. induction fuel as [|fuel IH]; intros s Hf; [lia|].
  cbn [readClientLoop].
  destruct (sockRead_cases c (cin s))
    as [[Hc Hr] | (got & rest & Hr & Hg & Hne & Hlt)]; rewrite Hr.
  - rewrite He. eexists. exists []. split; [reflexivity|].
    rewrite !remote_written_emit. trace_simpl.
    cbn [remote_written delivered app length]. rewrite ?app_nil_r, Nat.add_0_r.
    auto 10.
  - assert (Hl : (length got <= fuel)%nat).
    { rewrite <- Hg, length_app in Hf. lia. }
    destruct (writeRemote_done r Hp fuel got
                (emit (ClientRead got) (set_cin rest s)) Hl) as [s2 W].
    rewrite W.
    apply writeRemote_prefix in W
      as (sl1 & W1 & W2 & _ & W4 & W5 & W6 & W7 & W8 & W9).
    specialize (W4 eq_refl).
    revert W1 W2 W4 W5. rewrite remote_written_emit. trace_simpl.
    cbn [remote_written rwrites cin rin cwrites remote emit set_cin] in *.
    rewrite ?app_nil_r. intros W1 W2 W4 W5.
    destruct (IH s2) as (s' & sl2 & H0 & H1 & H2 & H3 & H4 & H5 & H6 & H7 & H8).
    { rewrite W6. lia. }
    exists s', (sl1 ++ sl2). split; [exact H0|].
    rewrite delivered_app, length_app, W4, <- W2.
    split; [rewrite H1, W1, app_assoc; reflexivity|].
    split; [rewrite H2, W6; exact Hg|].
    split; [lia|]. repeat split; congruence.
Qed.

(** With a remote whose stream ends in a read error, and a client that
    takes at least a byte per [Write] without error, the loop returns once
    it has [length (rin s) + 2] units of fuel, and the client has then
    taken every byte the remote had sent. *)
Lemma readRemoteLoop_forwards (c r : TCPConn) :
  ending r = OtherError -> progressing c ->
  forall fuel s,
    (length (rin s) + 2 <= fuel)%nat ->
    exists s' slices,
      readRemoteLoop fuel c r s = Some s' /\
      written (trace s') = written (trace s) ++ slices /\
      delivered (wr c) (cwrites s) slices = rin s /\
      cwrites s' = (cwrites s + length slices)%nat /\
      remote_written (trace s') = remote_written (trace s) /\
      rin s' = [] /\ cin s' = cin s /\ rwrites s' = rwrites s /\
      remote s' = remote s.
Proof.
  intros He Hp. induction fuel as [|fuel IH]; intros s Hf; [lia|].
  cbn [readRemoteLoop].
  destruct (sockRead_cases r (rin s))
    as [[Hc Hr] | (got & rest & Hr & Hg & Hne & Hlt)]; rewrite Hr.
  - rewrite He. eexists. exists []. split; [reflexivity|].
    rewrite !written_emit. rtrace_simpl.
    cbn [written delivered app length]. rewrite ?app_nil_r, Nat.add_0_r.
    auto 10.
  - assert (Hl : (length got <= fuel)%nat).
    { rewrite <- Hg, length_app in Hf. lia. }
    destruct (writeClient_done c Hp fuel got
                (emit (RemoteRead got) (set_rin rest s)) Hl) as [s2 W].
    rewrite W.
    apply writeClient_prefix in W
      as (sl1 & W1 & W2 & _ & W4 & W5 & W6 & W7 & W8 & W9).
    specialize (W4 eq_refl).
    revert W1 W2 W4 W5. rewrite written_emit. rtrace_simpl.
    cbn [written cwrites rin cin rwrites remote emit set_rin] in *.
    rewrite ?app_nil_r. intros W1 W2 W4 W5.
    destruct (IH s2) as (s' & sl2 & H0 & H1 & H2 & H3 & H4 & H5 & H6 & H7 & H8).
    { rewrite W6. lia. }
    exists s', (sl1 ++ sl2). split; [exact H0|].
    rewrite delivered_app, length_app, W4, <- W2.
    split; [rewrite H1, W1, app_assoc; reflexivity|].
    split; [rewrite H2, W6; exact Hg|].
    split; [lia|]. repeat split; congruence.
Qed.

(** X11. Whatever the two sockets do (short writes, errors, any fuel), if
    [readClientLoop] returns, the bytes the remote socket took, slice by
    slice, are a front of the bytes the client had sent, in the same
    order: nothing is duplicated, reordered or made up. *)
Theorem relay_upstream_in_order (c r : TCPConn) (fuel : nat) (s s' : State) :
  readClientLoop fuel c r s = Some s' ->
  exists slices tail,
    remote_written (trace s') = remote_written (trace s) ++ slices /\
    delivered (wr r) (rwrites s) slices ++ tail = cin s.
Proof.
  intros H.
  destruct (readClientLoop_prefix c r fuel s s' H)
    as (sl & tl & H1 & H2 & _).
  exists sl, tl. split; assumption.
Qed.

Lemma relay_upstream_in_order_witness :
  readClientLoop 5 (sock [x61; x62; x63] OtherError) (sock [] OtherError)
    {| cin := [x61; x62; x63]; cwrites := 2; remote := None; rin := [];
       rwrites := 0; trace := [] |}
  = Some {| cin := []; cwrites := 2; remote := None; rin := [];
            rwrites := 1;
            trace := [ClientRead [x61; x62; x63];
                      RemoteWrite [x61; x62; x63];
                      ClientRead []; Log LogReadClient] |} /\
  exists slices tail,
    remote_written [ClientRead [x61; x62; x63]; RemoteWrite [x61; x62; x63];
                    ClientRead []; Log LogReadClient]
    = remote_written [] ++ slices /\
    delivered write_all 0 slices ++ tail = [x61; x62; x63].
Proof.
  split; [reflexivity|].
  exact (relay_upstream_in_order
           (sock [x61; x62; x63] OtherError) (sock [] OtherError) 5
           {| cin := [x61; x62; x63]; cwrites := 2; remote := None; rin := [];
              rwrites := 0; trace := [] |}
           _ eq_refl).
Defined.

(** X12. The same for the other direction: if [readRemoteLoop] returns,
    the bytes the client socket took are a front of the bytes the remote
    had sent, in the same order. *)
Theorem relay_downstream_in_order (c r : TCPConn) (fuel : nat) (s s' : State) :
  readRemoteLoop fuel c r s = Some s' ->
  exists slices tail,
    written (trace s') = written (trace s) ++ slices /\
    delivered (wr c) (cwrites s) slices ++ tail = rin s.
Proof.
  intros H.
  destruct (readRemoteLoop_prefix c r fuel s s' H)
    as (sl & tl & H1 & H2 & _).
  exists sl, tl. split; assumption.
Qed.

Lemma relay_downstream_in_order_witness :
  readRemoteLoop 5 (sock [] OtherError) (sock [x61; x62] OtherError)
    {| cin := []; cwrites := 2; remote := None; rin := [x61; x62];
       rwrites := 0; trace := [] |}
  = Some {| cin := []; cwrites := 3; remote := None; rin := [];
            rwrites := 0;
            trace := [RemoteRead [x61; x62]; ClientWrite [x61; x62];
                      RemoteRead []; Log LogReadRemote] |} /\
  exists slices tail,
    written [RemoteRead [x61; x62]; ClientWrite [x61; x62];
             RemoteRead []; Log LogReadRemote]
    = written [] ++ slices /\
    delivered write_all 2 slices ++ tail = [x61; x62].
Proof.
  split; [reflexivity|].
  exact (relay_downstream_in_order
           (sock [] OtherError) (sock [x61; x62] OtherError) 5
           {| cin := []; cwrites := 2; remote := None; rin := [x61; x62];
              rwrites := 0; trace := [] |}
           _ eq_refl).
Defined.

(** X13. When both streams end in a read error other than [os.EOF] and
    both sockets take at least one byte per [Write] without reporting an
    error (short writes allowed), the relay returns once the fuel exceeds
    the longer stream by two, and by then the remote has taken exactly the
    bytes the client had sent and the client exactly the bytes the remote
    had sent: short writes are retried until the chunk is through. *)
Theorem relay_delivers_everything (c r : TCPConn) (fuel : nat) (s : State) :
  ending c = OtherError -> ending r = OtherError ->
  progressing c -> progressing r ->
  (length (cin s) + 2 <= fuel)%nat ->
  (length (rin s) + 2 <= fuel)%nat ->
  exists s' up down,
    relay fuel c r s = Some s' /\
    remote_written (trace s') = remote_written (trace s) ++ up /\
    delivered (wr r) (rwrites s) up = cin s /\
    written (trace s') = written (trace s) ++ down /\
    delivered (wr c) (cwrites s) down = rin s /\
    cin s' = [] /\ rin s' = [] /\ remote s' = remote s.
Proof.
  intros Ec Er Pc Pr Fc Fr. unfold relay.
  destruct (readClientLoop_forwards c r Ec Pr fuel s Fc)
    as (s1 & up & H0 & H1 & H2 & H3 & H4 & H5 & H6 & H7 & H8).
  rewrite H0.
  destruct (readRemoteLoop_forwards c r Er Pc fuel s1)
    as (s2 & down & K0 & K1 & K2 & K3 & K4 & K5 & K6 & K7 & K8).
  { rewrite H6. exact Fr. }
  exists s2, up, down. split; [exact K0|].
  split; [rewrite K4, H1; reflexivity|].
  split; [exact H2|].
  split; [rewrite K1, H4; reflexivity|].
  split; [rewrite <- H7, K2, H6; reflexivity|].
  split; [congruence|]. split; [exact K5 | congruence].
Qed.

Lemma relay_delivers_everything_witness :
  progressing (sock [x61] OtherError) /\
  exists s' up down,
    relay 4 (sock [x61] OtherError) (sock [x62; x63] OtherError)
      {| cin := [x61]; cwrites := 2; remote := None; rin := [x62; x63];
         rwrites := 0; trace := [] |} = Some s' /\
    remote_written (trace s') = remote_written [] ++ up /\
    delivered write_all 0 up = [x61] /\
    written (trace s') = written [] ++ down /\
    delivered write_all 2 down = [x62; x63] /\
    cin s' = [] /\ rin s' = [] /\ remote s' = None.
Proof.
  assert (P : forall bs, progressing (sock bs OtherError)).
  { intros bs k l Hl. split; [discriminate|].
    destruct l; [contradiction | cbn; apply le_n_S, Nat.le_0_l]. }
  split; [apply P|].
  apply (relay_delivers_everything
           (sock [x61] OtherError) (sock [x62; x63] OtherError) 4
           {| cin := [x61]; cwrites := 2; remote := None; rin := [x62; x63];
              rwrites := 0; trace := [] |}
           eq_refl eq_refl (P _) (P _)).
  - apply Nat.leb_le. reflexivity.
  - apply Nat.leb_le. reflexivity.
Defined.

(** * Beyond the specification: whole connections and [main] *)

Lemma keeps_count_connect (e : Env) a reply : keeps_count (connect e a reply).
Proof.
  unfold connect. keeps_count_steps.
  match goal with |- keeps_count (match ?x with _ => _ end) => destruct x end;
    keeps_count_steps.
Qed.

Lemma keeps_count_sendReply (e : Env) a reply :
  keeps_count (sendReply e a reply).
Proof. unfold sendReply. keeps_count_steps. Qed.

Lemma keeps_cin_bind {A B} (m : M A) (k : A -> M B) :
  keeps_cin m -> (forall a, keeps_cin (k a)) -> keeps_cin (bind m k).
Proof.
  intros Hm Hk s. unfold bind. specialize (Hm s).
  destruct (m s) as [s1 [a | |]]; cbn [fst] in *; try exact Hm.
  rewrite Hk. exact Hm.
Qed.

Lemma keeps_cin_ret {A} (a : A) : keeps_cin (ret a).
Proof. intros s. reflexivity. Qed.

Lemma keeps_cin_return {A} : keeps_cin (@return_ A).
Proof. intros s. reflexivity. Qed.

Lemma keeps_cin_panic {A} : keeps_cin (@panic A).
Proof. intros s. reflexivity. Qed.

Lemma keeps_cin_log (m : logmsg) : keeps_cin (log m).
Proof. intros s. reflexivity. Qed.

Lemma keeps_cin_return_if (c : bool) (m : logmsg) : keeps_cin (return_if c m).
Proof. intros s. destruct c; reflexivity. Qed.

Lemma keeps_cin_check (c : bool) : keeps_cin (check c).
Proof. intros s. destruct c; reflexivity. Qed.

Lemma keeps_cin_clientWrite (e : Env) (bs : list byte) :
  keeps_cin (clientWrite e bs).
Proof. intros s. reflexivity. Qed.

Lemma keeps_cin_dialTCP (e : Env) (a : TCPAddr) : keeps_cin (dialTCP e a).
Proof. intros s. unfold dialTCP. destruct (DialTCP e a); reflexivity. Qed.

Create HintDb keeps_cin.

#[local] Hint Resolve keeps_cin_ret keeps_cin_return keeps_cin_panic
  keeps_cin_log keeps_cin_return_if keeps_cin_check keeps_cin_clientWrite
  keeps_cin_dialTCP : keeps_cin.

Ltac keeps_cin_steps :=
  repeat (first [ apply keeps_cin_bind; [|intros]
                | solve [auto with keeps_cin] ]).

(** Dialling and replying read nothing from the client. *)
Lemma keeps_cin_after_request (e : Env) (a : TCPAddr) :
  keeps_cin (after_request e a).
Proof.
  unfold after_request, connect, sendReply. keeps_cin_steps.
  match goal with |- keeps_cin (match ?x with _ => _ end) => destruct x end;
    keeps_cin_steps.
Qed.

(** The state in which the relay starts. *)
Lemma negotiate_success_state (e : Env) (s : State) (r : TCPConn) :
  negotiate e (initial e) = (s, Next r) ->
  remote s = Some r /\ rin s = incoming r /\ rwrites s = 0%nat /\
  remote_written (trace s) = [] /\ counted s.
Proof.
  intros H. rewrite negotiate_split in H.
  invert_step H as s1 u1 K1.
  pose proof (client_only_greeting e (initial e)) as Og.
  pose proof (keeps_count_greeting e (initial e) (counted_initial e)) as Cg.
  rewrite K1 in Og, Cg. cbn [fst] in Og, Cg. clear K1.
  unfold after_greeting in H.
  invert_step H as s2 ar K2. destruct ar as [a reply].
  pose proof (client_only_request e s1) as Or.
  pose proof (keeps_count_request e s1 Cg) as Cr.
  rewrite K2 in Or, Cr. cbn [fst] in Or, Cr. clear K2.
  invert_step H as s3 c K3.
  pose proof (keeps_count_connect e a reply s2 Cr) as Cc.
  rewrite K3 in Cc. cbn [fst] in Cc.
  unfold connect in K3. invert_step K3 as s4 d K4.
  unfold dialTCP in K4.
  destruct (DialTCP e a) as [c0|] eqn:D.
  2:{ inversion K4; subst. discriminate. }
  inversion K4; subst; clear K4. inversion K3; subst; clear K3.
  invert_step H as s5 u5 K5. inversion H; subst; clear H.
  pose proof (client_only_sendReply e a reply
                (emit (Dial a) (open_remote r s2))) as Os.
  pose proof (keeps_count_sendReply e a reply _ Cc) as Cs.
  rewrite K5 in Os, Cs. cbn [fst] in Os, Cs.
  destruct Os as (S1 & S2 & S3 & S4).
  destruct Og as (_ & _ & _ & G4). destruct Or as (_ & _ & _ & R4).
  rewrite S1, S2, S3, S4. cbn [remote rin rwrites emit open_remote].
  rewrite remote_written_emit. cbn [trace open_remote remote_written].
  rewrite app_nil_r, R4, G4. auto.
Qed.

(** X14. A whole connection.  When the negotiation reaches the relay with
    outbound socket [r], both peers' streams end in a read error other
    than [os.EOF], both sockets take at least one byte per [Write] without
    error, and the fuel exceeds the longer stream by two, [clientLoop]
    returns: the remote took exactly the bytes the client sent after its
    request, the client took, after the negotiation's frames, exactly the
    bytes the remote sent, and the run ends by closing the remote socket
    and then the client socket. *)
Theorem connection_completes (e : Env) (s : State) (r : TCPConn) (fuel : nat) :
  negotiate e (initial e) = (s, Next r) ->
  ending (client e) = OtherError -> ending r = OtherError ->
  progressing (client e) -> progressing r ->
  (length (cin s) + 2 <= fuel)%nat ->
  (length (incoming r) + 2 <= fuel)%nat ->
  exists s' up down pre,
    clientLoop fuel e = Some s' /\
    remote_written (trace s') = up /\
    delivered (wr r) 0 up = cin s /\
    written (trace s') = written (trace s) ++ down /\
    delivered (wr (client e)) (length (written (trace s))) down = incoming r /\
    trace s' = pre ++ [CloseRemote; CloseClient].
Proof.
  intros Hn Ec Er Pc Pr Fc Fr.
  destruct (negotiate_success_state e s r Hn) as (S1 & S2 & S3 & S4 & S5).
  destruct (relay_delivers_everything (client e) r fuel s Ec Er Pc Pr Fc)
    as (s' & up & down & H0 & H1 & H2 & H3 & H4 & H5 & H6 & H7).
  { rewrite S2. exact Fr. }
  exists (deferred s'), up, down, (trace s').
  unfold clientLoop. rewrite Hn, H0.
  split; [reflexivity|].
  unfold deferred. rewrite H7, S1.
  rewrite remote_written_emit, remote_written_emit, written_emit, written_emit.
  cbn [written remote_written]. rewrite !app_nil_r.
  rewrite S4 in H1. rewrite S3 in H2. rewrite S5 in H4. rewrite S2 in H4.
  split; [exact H1|]. split; [exact H2|]. split; [exact H3|].
  split; [exact H4|].
  cbn [trace emit]. rewrite <- app_assoc. reflexivity.
Qed.

Lemma connection_completes_witness :
  progressing (sock [] OtherError) /\
  exists s' up down pre,
    clientLoop 4
      (env [x05; x01; x00; x05; x01; x00; x01; x01; x02; x03; x04; x01; xbb;
            x47; x45]
           no_dns (fun _ => Some (sock [x48; x49] OtherError))) = Some s' /\
    remote_written (trace s') = up /\
    delivered write_all 0 up = [x47; x45] /\
    written (trace s')
    = [[x05; x00]; [x05; x00; x00; x01; x01; x02; x03; x04; x01; xbb]] ++ down /\
    delivered write_all 2 down = [x48; x49] /\
    trace s' = pre ++ [CloseRemote; CloseClient].
Proof.
  assert (P : forall bs, progressing (sock bs OtherError)).
  { intros bs k l Hl. split; [discriminate|].
    destruct l; [contradiction | cbn; apply le_n_S, Nat.le_0_l]. }
  split; [apply P|].
  apply (connection_completes
           (env [x05; x01; x00; x05; x01; x00; x01; x01; x02; x03; x04; x01; xbb;
                 x47; x45]
                no_dns (fun _ => Some (sock [x48; x49] OtherError)))
           _ (sock [x48; x49] OtherError) 4 eq_refl eq_refl eq_refl (P _) (P _)).
  - apply Nat.leb_le. reflexivity.
  - apply Nat.leb_le. reflexivity.
Defined.

Lemma keeps_cin_establish (e : Env) (ar : TCPAddr * list byte) :
  keeps_cin (let (remoteAddress, reply) := ar in
             c <- connect e remoteAddress reply ;;
             sendReply e remoteAddress reply ;;
             ret c).
Proof.
  destruct ar as [a reply]. unfold connect, sendReply. keeps_cin_steps.
  match goal with |- keeps_cin (match ?x with _ => _ end) => destruct x end;
    keeps_cin_steps.
Qed.

(** X15. The negotiation reads exactly the request and nothing behind it:
    for an IPv4 request (4 + 6 bytes), an IPv6 request (4 + 18 bytes) and a
    domain request whose lookup succeeds (4 + 1 + L + 2 bytes), whatever
    the dial and the reply write do, the bytes the client sent after the
    request are still unread when the negotiation ends. *)
Theorem negotiation_consumes_request (e : Env) n methods rest :
  (forall a b c d hi lo,
     negotiated e n methods
       (x05 :: x01 :: x00 :: x01 :: a :: b :: c :: d :: hi :: lo :: rest) ->
     cin (fst (negotiate e (initial e))) = rest) /\
  (forall ip hi lo,
     negotiated e n methods
       (x05 :: x01 :: x00 :: x04 :: ip ++ hi :: lo :: rest) ->
     length ip = 16%nat ->
     cin (fst (negotiate e (initial e))) = rest) /\
  (forall L host hi lo ip0 ips,
     negotiated e n methods
       (x05 :: x01 :: x00 :: x03 :: L :: host ++ hi :: lo :: rest) ->
     length host = b2n L ->
     LookupIP e host = Some (ip0 :: ips) ->
     cin (fst (negotiate e (initial e))) = rest).
Proof.
  split; [|split].
  - intros a b c d hi lo N.
    rewrite (negotiate_after e n methods _ N). unfold after_greeting.
    rewrite (bind_Next _ _ _ _ _ (request_ipv4 e n methods a b c d hi lo rest)).
    etransitivity;
      [exact (keeps_cin_establish e
                ({| IP := [a; b; c; d]; Port := port_of hi lo |},
                 store 3 x01 reply_init) _)
      | reflexivity].
  - intros ip hi lo N Hlen.
    rewrite (negotiate_after e n methods _ N). unfold after_greeting.
    assert (R : request e (post_greeting n methods
                             (x05 :: x01 :: x00 :: x04 :: ip ++ hi :: lo :: rest))
                = (emit (Log (LogRequestedAddress
                                {| IP := ip; Port := port_of hi lo |}))
                     (emit (ClientRead (ip ++ [hi; lo]))
                        (set_cin rest
                           (post_header n methods [x05; x01; x00; x04]
                              (ip ++ hi :: lo :: rest)))),
                   Next ({| IP := ip; Port := port_of hi lo |},
                         store 3 x04 reply_init))).
    { explode ip. rewrite request_header. reflexivity. }
    rewrite (bind_Next _ _ _ _ _ R).
    etransitivity;
      [exact (keeps_cin_establish e
                ({| IP := ip; Port := port_of hi lo |},
                 store 3 x04 reply_init) _)
      | reflexivity].
  - intros L host hi lo ip0 ips N Hlen Hl.
    rewrite (negotiate_after e n methods _ N). unfold after_greeting.
    pose proof (request_domain e n methods L host (hi :: lo :: rest) Hlen) as R.
    rewrite Hl in R.
    rewrite (bind_Next _ _ _ _ _ R).
    etransitivity;
      [exact (keeps_cin_establish e
                ({| IP := ip0; Port := port_of hi lo |},
                 store 3 (z2b (Z.of_nat (length ip0) / 4)) reply_init) _)
      | reflexivity].
Qed.

Lemma negotiation_consumes_request_witness :
  negotiated
    (env [x05; x01; x00; x05; x01; x00; x03; x02; x61; x62; x01; xbb; x47; x45]
         (fun _ => Some [[x0a; x00; x00; x07]])
         (fun _ => Some (sock [] OtherError)))
    x01 [x00]
    (x05 :: x01 :: x00 :: x03 :: x02 :: [x61; x62] ++ x01 :: xbb :: [x47; x45]) /\
  cin (fst (negotiate
    (env [x05; x01; x00; x05; x01; x00; x03; x02; x61; x62; x01; xbb; x47; x45]
         (fun _ => Some [[x0a; x00; x00; x07]])
         (fun _ => Some (sock [] OtherError)))
    (initial
       (env [x05; x01; x00; x05; x01; x00; x03; x02; x61; x62; x01; xbb;
             x47; x45]
            (fun _ => Some [[x0a; x00; x00; x07]])
            (fun _ => Some (sock [] OtherError))))))
  = [x47; x45].
Proof.
  assert (N : negotiated
    (env [x05; x01; x00; x05; x01; x00; x03; x02; x61; x62; x01; xbb; x47; x45]
         (fun _ => Some [[x0a; x00; x00; x07]])
         (fun _ => Some (sock [] OtherError)))
    x01 [x00]
    (x05 :: x01 :: x00 :: x03 :: x02 :: [x61; x62] ++ x01 :: xbb :: [x47; x45])).
  { split; [split; [reflexivity | split; [discriminate | reflexivity]]|].
    split; [left; reflexivity | split; reflexivity]. }
  split; [exact N|].
  exact (proj2 (proj2 (negotiation_consumes_request _ _ _ _))
           _ _ _ _ _ _ N eq_refl eq_refl).
Defined.

(** X16. [main] serves the connections accepted before the first accept
    error, in order, and that error ends the process with status 1 whether
    or not it is temporary: [log.Fatalf] (line 27) exits before the
    [Temporary] test of lines 28-31 is reached, and connections that would
    have been accepted later are never served.  A failed [ListenTCP] exits
    with status 1 and serves nobody. *)
Theorem main_stops_at_first_accept_error (flagPort : Z)
  (ListenTCP : TCPAddr -> option (list accept_result))
  (cs : list TCPConn) (temporary : bool) (later : list accept_result) :
  (ListenTCP {| IP := [x00; x00; x00; x00]; Port := flagPort |}
   = Some (map Accepted cs ++ AcceptFailed temporary :: later) ->
   main flagPort ListenTCP = (cs, Exited 1)) /\
  (ListenTCP {| IP := [x00; x00; x00; x00]; Port := flagPort |} = None ->
   main flagPort ListenTCP = ([], Exited 1)) /\
  (ListenTCP {| IP := [x00; x00; x00; x00]; Port := flagPort |}
   = Some (map Accepted cs) ->
   main flagPort ListenTCP = (cs, Accepting)).
Proof.
  unfold main. split; [|split]; intros ->; [|reflexivity|].
  - induction cs as [|c cs IH]; cbn [map app acceptLoop]; [reflexivity|].
    rewrite IH. reflexivity.
  - induction cs as [|c cs IH]; cbn [map acceptLoop]; [reflexivity|].
    rewrite IH. reflexivity.
Qed.

Lemma main_stops_at_first_accept_error_witness :
  (fun _ : TCPAddr =>
     Some (map Accepted [sock [] EOF] ++
           AcceptFailed true :: [Accepted (sock [x05] EOF)]))
    {| IP := [x00; x00; x00; x00]; Port := 1080 |}
  = Some (map Accepted [sock [] EOF] ++
          AcceptFailed true :: [Accepted (sock [x05] EOF)]) /\
  main 1080
    (fun _ => Some (map Accepted [sock [] EOF] ++
                    AcceptFailed true :: [Accepted (sock [x05] EOF)]))
  = ([sock [] EOF], Exited 1).
Proof.
  split; [reflexivity|].
  exact (proj1 (main_stops_at_first_accept_error 1080
                  (fun _ => Some (map Accepted [sock [] EOF] ++
                                  AcceptFailed true :: [Accepted (sock [x05] EOF)]))
                  [sock [] EOF] true [Accepted (sock [x05] EOF)])
           eq_refl).
Defined.

(** X17. Once the relay has started, a peer that closes its side cleanly
    hangs the connection: if the client's stream ends in [os.EOF] and the
    remote never reports a write error, or the remote's stream ends in
    [os.EOF] and the client never reports a write error, then no amount of
    fuel lets [clientLoop] return, so neither socket is ever closed. *)
Theorem connection_hangs_at_eof (e : Env) (s : State) (r : TCPConn) :
  negotiate e (initial e) = (s, Next r) ->
  (ending (client e) = EOF /\ accepts_writes r) \/
  (ending r = EOF /\ accepts_writes (client e)) ->
  forall fuel, clientLoop fuel e = None.
Proof.
  intros Hn H fuel. unfold clientLoop. rewrite Hn. unfold relay.
  destruct H as [[He Hw] | [He Hw]].
  - rewrite (readClientLoop_spins (client e) r He Hw). reflexivity.
  - destruct (readClientLoop fuel (client e) r s); [|reflexivity].
    rewrite (readRemoteLoop_spins (client e) r He Hw). reflexivity.
Qed.

Lemma connection_hangs_at_eof_witness :
  negotiate
    (env [x05; x01; x00; x05; x01; x00; x01; x01; x02; x03; x04; x01; xbb]
         no_dns (fun _ => Some (sock [x41] EOF)))
    (initial
       (env [x05; x01; x00; x05; x01; x00; x01; x01; x02; x03; x04; x01; xbb]
            no_dns (fun _ => Some (sock [x41] EOF))))
  = (fst (negotiate
       (env [x05; x01; x00; x05; x01; x00; x01; x01; x02; x03; x04; x01; xbb]
            no_dns (fun _ => Some (sock [x41] EOF)))
       (initial
          (env [x05; x01; x00; x05; x01; x00; x01; x01; x02; x03; x04; x01; xbb]
               no_dns (fun _ => Some (sock [x41] EOF))))),
     Next (sock [x41] EOF)) /\
  clientLoop 100
    (env [x05; x01; x00; x05; x01; x00; x01; x01; x02; x03; x04; x01; xbb]
         no_dns (fun _ => Some (sock [x41] EOF))) = None.
Proof.
  split; [reflexivity|].
  apply (connection_hangs_at_eof
           (env [x05; x01; x00; x05; x01; x00; x01; x01; x02; x03; x04; x01; xbb]
                no_dns (fun _ => Some (sock [x41] EOF)))
           _ (sock [x41] EOF) eq_refl).
  right. split; [reflexivity|]. intros k bs. discriminate.
Defined.

(** X18. A request header that is turned away (version not 5, command not
    CONNECT, reserved byte not zero, or address type none of 0x01, 0x03,
    0x04) never causes a lookup or a dial: the connection is closed
    without the resolver or the network having been touched. *)
Theorem rejected_request_untouched (e : Env) n methods v cmd rsv atyp rest fuel :
  negotiated e n methods (v :: cmd :: rsv :: atyp :: rest) ->
  v <> x05 \/ cmd <> x01 \/ rsv <> x00 \/
  (atyp <> x01 /\ atyp <> x03 /\ atyp <> x04) ->
  exists s,
    clientLoop fuel e = Some s /\ closed s /\
    dialled (trace s) = [] /\ looked_up (trace s) = [].
Proof.
  intros N H.
  assert (exists s ws,
            request e (post_greeting n methods (v :: cmd :: rsv :: atyp :: rest))
            = (s, Return) /\
            written (trace s) = ws /\ dialled (trace s) = [] /\
            looked_up (trace s) = []) as (s & ws & R).
  { destruct (Byte.byte_eq_dec v x05) as [-> | Hv].
    2:{ eexists. eexists. split.
        { rewrite request_header. unfold dispatch. cbn [at_ nth].
          rewrite (eqb_neq _ _ Hv). reflexivity. }
        repeat split; reflexivity. }
    destruct (Byte.byte_eq_dec cmd x01) as [-> | Hc].
    2:{ eexists. eexists. split.
        { rewrite request_header. unfold dispatch. cbn [at_ nth].
          rewrite eqb_refl, (eqb_neq _ _ Hc). reflexivity. }
        repeat split; reflexivity. }
    destruct (Byte.byte_eq_dec rsv x00) as [-> | Hr].
    2:{ eexists. eexists. split.
        { rewrite request_header. unfold dispatch. cbn [at_ nth].
          rewrite (eqb_neq _ _ Hr). reflexivity. }
        repeat split; reflexivity. }
    destruct H as [H | [H | [H | (H1 & H3 & H4)]]]; try contradiction.
    eexists. eexists. split.
    { rewrite request_header. unfold dispatch. cbn [at_ nth].
      rewrite (eqb_neq _ _ H1), (eqb_neq _ _ H3), (eqb_neq _ _ H4).
      reflexivity. }
    repeat split; reflexivity. }
  destruct (clientLoop_request_returned e n methods _ fuel ws [] [] N
              (ex_intro _ s R)) as (s' & K1 & K2 & _ & K4 & K5).
  exists s'. auto.
Qed.

Lemma rejected_request_untouched_witness :
  negotiated
    (env [x05; x01; x00; x05; x03; x00; x03; x02; x61; x62; x00; x50]
         (fun _ => Some [[x0a; x00; x00; x07]])
         (fun _ => Some (sock [] OtherError)))
    x01 [x00] [x05; x03; x00; x03; x02; x61; x62; x00; x50] /\
  exists s,
    clientLoop 0
      (env [x05; x01; x00; x05; x03; x00; x03; x02; x61; x62; x00; x50]
           (fun _ => Some [[x0a; x00; x00; x07]])
           (fun _ => Some (sock [] OtherError))) = Some s /\
    closed s /\ dialled (trace s) = [] /\ looked_up (trace s) = [].
Proof.
  assert (N : negotiated
    (env [x05; x01; x00; x05; x03; x00; x03; x02; x61; x62; x00; x50]
         (fun _ => Some [[x0a; x00; x00; x07]])
         (fun _ => Some (sock [] OtherError)))
    x01 [x00] [x05; x03; x00; x03; x02; x61; x62; x00; x50]).
  { split; [split; [reflexivity | split; [discriminate | reflexivity]]|].
    split; [left; reflexivity | split; reflexivity]. }
  split; [exact N|].
  apply (rejected_request_untouched _ _ _ _ _ _ _ _ 0%nat N).
  right. left. discriminate.
Defined.
